(** * The InfoNCE loss construction of the SimCLR notebook

    A shallow embedding of [SimCLR.info_nce_loss] (the contrastive batch
    scorer of the self-supervised tutorial) and of the tensor operations it
    calls, followed by the properties of the logits / labels it returns.

    A 2-D tensor is modelled by its rows and its number of columns, a 1-D
    tensor by the list of its elements; the exceptions of the tensor
    operations are explicit results.  The scalar type is kept abstract (a
    [Scalar] class) for the structural results and instantiated with the
    real numbers for the algebraic ones. *)

From Stdlib Require Import List ZArith Arith Bool Lia Sorted Permutation.
From Stdlib Require Import Reals Lra.
Import ListNotations.

(** ** Exceptions and results *)

(** The two exception classes the tensor library raises on the paths of
    [info_nce_loss]: a boolean mask whose shape differs from the indexed
    tensor ([IndexError]) and an impossible [arange] / [view] / [cat]
    ([RuntimeError]). *)
Inductive exn : Type :=
| IndexError
| RuntimeError.

Definition result (A : Type) : Type := (exn + A)%type.

(** ** Scalars *)

(** The floating-point operations the loss uses.  [fone] / [fzero] are the
    images of [True] / [False] under [.float()], [nonzero] is [.bool()], and
    [feps] is the default [eps = 1e-12] of [F.normalize]. *)
Class Scalar (F : Type) : Type := {
  fzero : F;
  fone : F;
  fadd : F -> F -> F;
  fmul : F -> F -> F;
  fdiv : F -> F -> F;
  fsqrt : F -> F;
  fmax : F -> F -> F;
  feps : F;
  nonzero : F -> bool;
  nonzero_fone : nonzero fone = true;
  nonzero_fzero : nonzero fzero = false
}.

(** ** Tensors *)

(** A 1-D tensor is the list of its elements.  A 2-D tensor of shape
    [(length rows, ncols)] is the list of its rows; [ncols] is kept apart so
    that a shape such as [(0, D)] or [(M, 0)] is not lost. *)
Record tensor2 (A : Type) : Type := Tensor2 {
  ncols : nat;
  rows : list (list A)
}.

Arguments Tensor2 {A} ncols rows.
Arguments ncols {A} t.
Arguments rows {A} t.

Definition shape0 {A} (t : tensor2 A) : nat := length (rows t).

(** Every row of a tensor has [ncols] elements. *)
Definition wf {A} (t : tensor2 A) : Prop :=
  Forall (fun r => length r = ncols t) (rows t).

Definition row {A} (t : tensor2 A) (i : nat) : list A := nth i (rows t) [].

Definition entry {A} (d : A) (t : tensor2 A) (i j : nat) : A :=
  nth j (row t i) d.

Definition map_tensor {A B} (f : A -> B) (t : tensor2 A) : tensor2 B :=
  Tensor2 (ncols t) (map (map f) (rows t)).

Fixpoint map2 {A B C} (f : A -> B -> C) (l : list A) (m : list B) : list C :=
  match l, m with
  | a :: l', b :: m' => f a b :: map2 f l' m'
  | _, _ => []
  end.

(** [firstn] / [skipn] cut a flat list into [r] rows of [c] elements. *)
Fixpoint chunks {A} (r c : nat) (l : list A) : list (list A) :=
  match r with
  | O => []
  | S r' => firstn c l :: chunks r' c (skipn c l)
  end.

(** [torch.arange(n)]: [0, 1, ..., n-1]; a negative bound is refused. *)
Definition arange (n : Z) : result (list Z) :=
  if (n <? 0)%Z then inl RuntimeError
  else inr (map Z.of_nat (seq 0 (Z.to_nat n))).

(** [l.unsqueeze(0) == l.unsqueeze(1)]: the broadcast comparison, entry
    [(i, j)] is [l[j] == l[i]]. *)
Definition eq_outer (l : list Z) : tensor2 bool :=
  Tensor2 (length l) (map (fun li => map (fun lj => Z.eqb lj li) l) l).

(** [torch.eye(n, dtype=torch.bool)]. *)
Definition eye (n : nat) : tensor2 bool :=
  Tensor2 n (map (fun i => map (fun j => Nat.eqb i j) (seq 0 n)) (seq 0 n)).

(** [~m] on a boolean tensor. *)
Definition lnot (m : tensor2 bool) : tensor2 bool := map_tensor negb m.

(** The elements of a row at the positions where the mask row is [true]. *)
Definition select_row {A} (r : list A) (m : list bool) : list A :=
  map fst (filter snd (combine r m)).

(** [t[m]] for a boolean mask [m]: the shapes must agree, the selected
    elements come out as a 1-D tensor in row-major order. *)
Definition masked_select {A} (t : tensor2 A) (m : tensor2 bool)
  : result (list A) :=
  if (shape0 t =? shape0 m) && (ncols t =? ncols m)
  then inr (concat (map2 select_row (rows t) (rows m)))
  else inl IndexError.

(** [l.view(r, -1)]: the second dimension is inferred.  It is ambiguous when
    [r = 0], and [r] has to divide the number of elements. *)
Definition view {A} (l : list A) (r : nat) : result (tensor2 A) :=
  let numel := length l in
  if (numel =? r) || ((0 <? r) && (numel mod r =? 0)) then
    if r =? 0 then inl RuntimeError
    else inr (Tensor2 (numel / r) (chunks r (numel / r) l))
  else inl RuntimeError.

(** [torch.cat([a, b], dim=1)]. *)
Definition cat1 {A} (a b : tensor2 A) : result (tensor2 A) :=
  if shape0 a =? shape0 b
  then inr (Tensor2 (ncols a + ncols b) (map2 (@app A) (rows a) (rows b)))
  else inl RuntimeError.

(** [torch.zeros(n, dtype=torch.long)]. *)
Definition zeros (n : nat) : list Z := repeat 0%Z n.

(** ** Positions in a batch of two views *)

(** Position [k] of a batch of [2N] views shows sample [k] (first view) or
    sample [k - N] (second view): element [k] of
    [cat([arange(N), arange(N)])]. *)
Definition sample (N k : nat) : Z := Z.of_nat (if k <? N then k else k - N).

(** The other view of the sample at position [i]. *)
Definition partner (N i : nat) : nat := if i <? N then i + N else i - N.

(** The columns of a row of [n] entries without column [i], in order. *)
Definition drop_col (n i : nat) : list nat :=
  filter (fun j => negb (i =? j)) (seq 0 n).

(** The columns of the negatives of anchor [i], in increasing order. *)
Definition negative_cols (N i : nat) : list nat :=
  filter (fun j => negb (j =? i) && negb (j =? partner N i)) (seq 0 (2 * N)).

(** The columns of the similarity matrix behind row [i] of the logits. *)
Definition logit_cols (N i : nat) : list nat := partner N i :: negative_cols N i.

(** The tensor whose row for [i] in [l] holds [f i j] for [j] in [cols i]. *)
Definition gather {A} (c : nat) (l : list nat) (cols : nat -> list nat)
  (f : nat -> nat -> A) : tensor2 A :=
  Tensor2 c (map (fun i => map (f i) (cols i)) l).

Section Loss.

Context {F : Type} {SF : Scalar F}.

Definition float_of_bool (b : bool) : F := if b then fone else fzero.

(** [.float()] and [.bool()]. *)
Definition to_float (m : tensor2 bool) : tensor2 F := map_tensor float_of_bool m.
Definition to_bool (t : tensor2 F) : tensor2 bool := map_tensor nonzero t.

Definition fsum (l : list F) : F := fold_right fadd fzero l.

Definition dot (u v : list F) : F :=
  fsum (map (fun p => fmul (fst p) (snd p)) (combine u v)).

(** The L2 norm of a row. *)
Definition norm (v : list F) : F := fsqrt (fsum (map (fun x => fmul x x) v)).

(** One row of [F.normalize(features, dim=1)]: [v / max(||v||_2, eps)]. *)
Definition normalize_row (v : list F) : list F :=
  map (fun x => fdiv x (fmax (norm v) feps)) v.

Definition normalize (t : tensor2 F) : tensor2 F :=
  Tensor2 (ncols t) (map normalize_row (rows t)).

Definition col (t : tensor2 F) (j : nat) : list F :=
  map (fun r => nth j r fzero) (rows t).

(** [t.T]. *)
Definition transpose (t : tensor2 F) : tensor2 F :=
  Tensor2 (shape0 t) (map (col t) (seq 0 (ncols t))).

(** [torch.matmul(a, b)] on 2-D tensors. *)
Definition matmul (a b : tensor2 F) : result (tensor2 F) :=
  if ncols a =? shape0 b
  then inr (Tensor2 (ncols b)
              (map (fun ra => map (fun j => dot ra (col b j)) (seq 0 (ncols b)))
                   (rows a)))
  else inl RuntimeError.

(** [t / x] for a scalar [x]. *)
Definition div_scalar (t : tensor2 F) (x : F) : tensor2 F :=
  map_tensor (fun y => fdiv y x) t.

(** ** The [SimCLR] object *)

(** The attributes set by [__init__].  The model, optimizer, scheduler,
    criterion and device are opaque here. *)
Context {Model Optimizer Scheduler Criterion Device : Type}.

Record SimCLR : Type := {
  device : Device;
  model : Model;
  optimizer : Optimizer;
  scheduler : Scheduler;
  criterion : Criterion;
  temperature : F;
  batch_size : Z;
  epochs : Z
}.

(** [t.to(device)] moves a tensor, its value is unchanged. *)
Definition to {A} (t : A) (d : Device) : A := t.

(** A method runs on the object, may raise, and hands the object back. *)
Definition M (A : Type) : Type := SimCLR -> result A * SimCLR.

Definition ret {A} (a : A) : M A := fun s => (inr a, s).

Definition bind {A B} (m : M A) (k : A -> M B) : M B :=
  fun s =>
    match m s with
    | (inr a, s') => k a s'
    | (inl e, s') => (inl e, s')
    end.

Definition getattr {A} (f : SimCLR -> A) : M A := fun s => (inr (f s), s).

(** A tensor operation: it may raise and does not touch the object. *)
Definition lift {A} (r : result A) : M A := fun s => (r, s).

Notation "x <- m ;; k" := (bind m (fun x => k))
  (at level 100, m at next level, right associativity).

(** ** [SimCLR.info_nce_loss] *)

Definition info_nce_loss (features : tensor2 F) : M (tensor2 F * list Z) :=
  bs <- getattr batch_size ;;
  a0 <- lift (arange bs) ;;
  a1 <- lift (arange bs) ;;
  let labels := concat [a0; a1] in
  let labels := to_float (eq_outer labels) in
  dev <- getattr device ;;
  let labels := to labels dev in
  let features := normalize features in
  similarity_matrix <- lift (matmul features (transpose features)) ;;
  dev <- getattr device ;;
  let mask := to (eye (shape0 labels)) dev in
  l <- lift (masked_select labels (lnot mask)) ;;
  labels <- lift (view l (shape0 labels)) ;;
  s <- lift (masked_select similarity_matrix (lnot mask)) ;;
  similarity_matrix <- lift (view s (shape0 similarity_matrix)) ;;
  p <- lift (masked_select similarity_matrix (to_bool labels)) ;;
  positives <- lift (view p (shape0 labels)) ;;
  n <- lift (masked_select similarity_matrix (lnot (to_bool labels))) ;;
  negatives <- lift (view n (shape0 similarity_matrix)) ;;
  logits <- lift (cat1 positives negatives) ;;
  dev <- getattr device ;;
  let labels := to (zeros (shape0 logits)) dev in
  t <- getattr temperature ;;
  let logits := div_scalar logits t in
  ret (logits, labels).

(** ** The similarity matrix and the expected logits *)

(** The value of [torch.matmul(features, features.T)] after normalization:
    the similarity matrix before masking. *)
Definition similarity (features : tensor2 F) : tensor2 F :=
  let nf := normalize features in
  Tensor2 (shape0 nf)
    (map (fun ra => map (fun j => dot ra (col (transpose nf) j))
                        (seq 0 (shape0 nf)))
         (rows nf)).

(** Entry [(i, j)] of the similarity matrix. *)
Definition sim (features : tensor2 F) (i j : nat) : F :=
  entry fzero (similarity features) i j.

(** Row [i] of the logits: the similarities of anchor [i] at the columns
    [logit_cols N i], each divided by the temperature. *)
Definition logits_of (features : tensor2 F) (t : F) (N : nat) : tensor2 F :=
  gather (2 * N - 1) (seq 0 (2 * N)) (logit_cols N)
         (fun i j => fdiv (sim features i j) t).

End Loss.

Arguments SimCLR F Model Optimizer Scheduler Criterion Device : clear implicits.
Arguments M F Model Optimizer Scheduler Criterion Device A : clear implicits.

(** ** Valid batches *)

(** A batch of [2N] embeddings, [N >= 2], scored by an object configured
    with [batch_size = N]. *)
Definition valid_batch {F Model Optimizer Scheduler Criterion Device : Type}
  (self : SimCLR F Model Optimizer Scheduler Criterion Device)
  (features : tensor2 F) (N : nat) : Prop :=
  batch_size self = Z.of_nat N /\ shape0 features = 2 * N /\ 2 <= N.

(** ** Scaling one embedding *)

Fixpoint update_nth {A} (k : nat) (f : A -> A) (l : list A) : list A :=
  match l, k with
  | [], _ => []
  | x :: l', O => f x :: l'
  | x :: l', S k' => x :: update_nth k' f l'
  end.

(** The batch with embedding [k] multiplied by the scalar [c]. *)
Definition scale_embedding {F} {SF : Scalar F} (k : nat) (c : F)
  (t : tensor2 F) : tensor2 F :=
  Tensor2 (ncols t) (update_nth k (map (fmul c)) (rows t)).

(** ** Real scalars *)

Definition Rnonzero (x : R) : bool := if Req_dec_T x 0 then false else true.

(** The real numbers as scalars.  They idealise the float32 entries of the
    notebook's tensors: the arithmetic is exact, nothing rounds, overflows
    or underflows, and there is neither [inf] nor [nan]; [x / 0] is the
    real [x * / 0], where the code gets [inf] or [nan].  What is proved
    over [R] is therefore proved of the code in exact real arithmetic
    only; the theorems that hold for every scalar type are stated over an
    arbitrary [Scalar] instead, and a theorem over [R] whose conclusion
    depends on the value of a quotient by the temperature assumes that
    the temperature is not [0]. *)
#[export] Instance R_scalar : Scalar R.
Proof.
  refine {| fzero := 0%R; fone := 1%R; fadd := Rplus; fmul := Rmult;
            fdiv := Rdiv; fsqrt := sqrt; fmax := Rmax; feps := 1e-12%R;
            nonzero := Rnonzero |}.
  - unfold Rnonzero. destruct (Req_dec_T 1 0) as [E|_]; [|reflexivity].
    exfalso. lra.
  - unfold Rnonzero. destruct (Req_dec_T 0 0) as [_|E]; [reflexivity|].
    exfalso. now apply E.
Defined.

(** The cosine similarity of two vectors, as the notebook defines it:
    [sim(u, v) = u . v / (||u|| ||v||)]. *)
Definition cosine_similarity (u v : list R) : R :=
  (dot u v / (norm u * norm v))%R.

(** ** Sample objects and batches *)

(** A [SimCLR] object over the reals whose opaque attributes are trivial. *)
Definition simclr (bs : Z) (t : R) : SimCLR R unit unit unit unit unit :=
  {| device := tt; model := tt; optimizer := tt; scheduler := tt;
     criterion := tt; temperature := t; batch_size := bs; epochs := 100 |}.

(** Two samples, both views equal: [[1,0],[0,1],[1,0],[0,1]]. *)
Definition two_pairs : tensor2 R :=
  Tensor2 2 [[1; 0]; [0; 1]; [1; 0]; [0; 1]]%R.

(** One sample only ([N = 1]). *)
Definition one_pair : tensor2 R := Tensor2 2 [[1; 0]; [0; 1]]%R.

(** Three embeddings: an odd batch. *)
Definition three_rows : tensor2 R := Tensor2 2 [[1; 0]; [0; 1]; [1; 0]]%R.

(** A batch whose first embedding is shorter than [eps]. *)
Definition tiny_first : tensor2 R := Tensor2 1 [[1e-13]; [1]; [1]; [1]]%R.

(** ** The criterion: [torch.nn.CrossEntropyLoss()] *)

(** The exceptions seen by the notebook's functions: those of the tensor
    operations, the [ValueError] of a criterion whose input and target
    disagree on the batch size (or of a loader, a range, a normalization
    given a bad argument), the [AssertionError] of a [TensorDataset] and
    Python's [UnboundLocalError]. *)
Inductive py_exn : Type :=
| TensorError (e : exn)
| ValueError
| AssertionError
| UnboundLocalError.

(** [-log_softmax(r)[t]]: the negative log-likelihood of class [t]. *)
Definition nll_row (r : list R) (t : nat) : R :=
  (ln (fsum (map exp r)) - nth t r 0)%R.

(** A target is the index of a class or the default [ignore_index = -100]. *)
Definition target_ok (c : nat) (y : Z) : bool :=
  ((y =? -100) || ((0 <=? y) && (y <? Z.of_nat c)))%Z.

(** [CrossEntropyLoss()(input, target)] for an input of shape [(n, c)] and
    [n] class indices, with the default mean reduction over the targets
    that are not ignored.  A target outside [0 .. c-1] is an [IndexError]
    (on the CPU). *)
Definition cross_entropy (input : tensor2 R) (target : list Z)
  : py_exn + R :=
  if negb (shape0 input =? length target) then inl ValueError
  else if negb (forallb (target_ok (ncols input)) target)
  then inl (TensorError IndexError)
  else
    let kept := filter (fun p => negb (snd p =? -100)%Z)
                       (combine (rows input) target) in
    inr (fsum (map (fun p => nll_row (fst p) (Z.to_nat (snd p))) kept)
         / INR (length kept))%R.

(** The InfoNCE loss of anchor [i] as the notebook states it:
    [-sim(z_i, z_j)/t + log (sum over k <> i of exp(sim(z_i, z_k)/t))],
    where [z_j] is the embedding of the partner of [i] and [sim] is the
    cosine similarity of the notebook, [cosine_similarity], taken of the
    embeddings themselves (not the entry of the similarity matrix that
    the code computes from the clamped normalization). *)
Definition info_nce_anchor (features : tensor2 R) (t : R) (N i : nat) : R :=
  (- (cosine_similarity (row features i) (row features (partner N i)) / t)
   + ln (fsum (map (fun k => exp (cosine_similarity (row features i)
                                                    (row features k) / t))
                   (seq 0 i ++ seq (S i) (2 * N - S i)))))%R.

(** ** Showing the views: [imshowSTL102views] *)

(** [range(start, stop, step)]; a zero step is a [ValueError]. *)
Definition py_range (start stop step : Z) : py_exn + list Z :=
  if (step =? 0)%Z then inl ValueError
  else
    let n := if (0 <? step)%Z
             then Z.to_nat ((stop - start + step - 1) / step)
             else Z.to_nat ((start - stop - step - 1) / (- step)) in
    inr (map (fun k => (start + step * Z.of_nat k)%Z) (seq 0 n)).

(** The values of [i] in [for i in range(1, 3*(rows-1)+2, 3)]: the indices
    of the samples shown. *)
Definition shown_samples (rows : Z) : py_exn + list Z :=
  py_range 1 (3 * (rows - 1) + 2) 3.

(** The positions passed to [fig.add_subplot(rows, 3, _)], in order:
    [i], [i+1], [i+2] for every [i] of the loop. *)
Definition subplot_positions (rows : Z) : py_exn + list Z :=
  match shown_samples rows with
  | inl e => inl e
  | inr l => inr (concat (map (fun i => [i; i + 1; i + 2]%Z) l))
  end.

(** The ImageNet statistics used by every [transforms.Normalize] of the
    notebook. *)
Definition imagenet_mean : list R := [0.485; 0.456; 0.406]%R.
Definition imagenet_std : list R := [0.229; 0.224; 0.225]%R.

(** A per-channel vector seen as [(C, 1, 1)] against an image of [c]
    channels: it fits when it has [c] entries or a single one. *)
Definition broadcast_channels (v : list R) (c : nat) : option (list R) :=
  if length v =? c then Some v
  else match v with
       | [x] => Some (repeat x c)
       | _ => None
       end.

(** [transforms.Normalize(mean, std)] on an image given by its channels:
    [(x - mean[c]) / std[c]]; a zero in [std] is a [ValueError]. *)
Definition tv_normalize (mean std : list R) (img : list (list R))
  : py_exn + list (list R) :=
  if existsb (fun s => negb (Rnonzero s)) std then inl ValueError
  else
    match broadcast_channels mean (length img),
          broadcast_channels std (length img) with
    | Some m, Some s =>
        inr (map2 (fun ch ms => map (fun x => (x - fst ms) / snd ms)%R ch)
                  img (combine m s))
    | _, _ => inl (TensorError RuntimeError)
    end.

(** [unnormalize = transforms.Normalize((-mean / std).tolist(),
    (1.0 / std).tolist())]. *)
Definition unnormalize (img : list (list R)) : py_exn + list (list R) :=
  tv_normalize (map2 (fun m s => (- m / s)%R) imagenet_mean imagenet_std)
               (map (fun s => (1 / s)%R) imagenet_std) img.

(** [np.clip(x, lo, hi)]. *)
Definition np_clip (lo hi x : R) : R := Rmin (Rmax x lo) hi.

(** [np.clip(unnormalize(img).numpy(), 0, 1)]: the image that is shown. *)
Definition shown_image (img : list (list R)) : py_exn + list (list R) :=
  match unnormalize img with
  | inl e => inl e
  | inr y => inr (map (map (np_clip 0 1)) y)
  end.

(** ** Batches of a [DataLoader] *)

(** The batches of a [BatchSampler] over the samples [l] in sampling
    order: [n] samples per batch, the last batch holding the rest. *)
Fixpoint batches_fuel {A} (fuel n : nat) (l : list A) : list (list A) :=
  match fuel with
  | O => []
  | S fuel' =>
      match l with
      | [] => []
      | _ => firstn n l :: batches_fuel fuel' n (skipn n l)
      end
  end.

(** Iterating [DataLoader(dataset, batch_size, drop_last)] over the samples
    in sampling order; [batch_size <= 0] is a [ValueError].  With
    [drop_last] an incomplete last batch is not yielded. *)
Definition data_loader {A} (batch_size : Z) (drop_last : bool) (l : list A)
  : py_exn + list (list A) :=
  if (batch_size <=? 0)%Z then inl ValueError
  else
    let n := Z.to_nat batch_size in
    let bs := batches_fuel (length l) n l in
    inr (if drop_last then filter (fun b => length b =? n) bs else bs).

(** ** Encoding a dataset: [prepare_data_features] *)

(** [torch.cat(ts, dim=0)] on a list of tensors given by their rows; an
    empty list is refused. *)
Definition cat_rows {A} (ts : list (list A)) : result (list A) :=
  match ts with
  | [] => inl RuntimeError
  | _ => inr (concat ts)
  end.

(** [t[idxs]] for an index tensor: the rows of [t] at the positions
    [idxs]; a position outside [t] is an [IndexError]. *)
Definition index_select {A} (t : list A) (idxs : list nat) : result (list A) :=
  if forallb (fun k => k <? length t) idxs
  then inr (flat_map (fun k => firstn 1 (skipn k t)) idxs)
  else inl IndexError.

Section Probe.

Context {F Img : Type}.

(** [network(batch_imgs)]: the copy of the model with its head replaced by
    the identity, in evaluation mode, on one batch of images. *)
Variable network : list Img -> list (list F).

(** The index tensor returned by [labels.sort()]; the sorted values are
    the labels at these indices. *)
Variable sort_indices : list Z -> list nat.

(** The features and labels handed to [TensorDataset] and returned as
    arrays. *)
Definition prepare_data_features (dataset : list (Img * Z)) (batchsize : Z)
  : py_exn + (list (list F) * list Z) :=
  match data_loader batchsize false dataset with
  | inl e => inl e
  | inr batches =>
      let feats := map (fun b => network (map fst b)) batches in
      let labels := map (fun b => map snd b) batches in
      match cat_rows feats with
      | inl e => inl (TensorError e)
      | inr feats =>
          match cat_rows labels with
          | inl e => inl (TensorError e)
          | inr labels =>
              let idxs := sort_indices labels in
              match index_select labels idxs with
              | inl e => inl (TensorError e)
              | inr sorted =>
                  match index_select feats idxs with
                  | inl e => inl (TensorError e)
                  | inr feats =>
                      if length feats =? length sorted
                      then inr (feats, sorted)
                      else inl AssertionError
                  end
              end
          end
      end
  end.

End Probe.

(** ** The training loop: [SimCLR.train] *)

(** What the loop does to its collaborators and prints, in order. *)
Inductive event : Type :=
| PrintStart (epochs : Z)
| ModelCall
| ZeroGrad
| Backward
| ScalerStep
| ScalerUpdate
| SchedulerStep
| PrintEpoch (epoch : nat) (loss : R) (dataset_len : Z) (lr : R)
| PrintFinished.

(** A run ends normally or with an exception; the state reached is kept in
    both cases. *)
Inductive outcome (S : Type) : Type :=
| Done (st : S)
| Raised (e : py_exn) (st : S).

Arguments Done {S} st.
Arguments Raised {S} e st.

(** The batch the loader yields for a batch of two-view samples: the list
    of the stacked first views and the stacked second views. *)
Definition collate_views {Img L : Type} (b : list (Img * Img * L))
  : list (list Img) :=
  [map (fun s => fst (fst s)) b; map (fun s => snd (fst s)) b].

Section Train.

Context {Model Optimizer Scheduler Criterion Device Scaler Img : Type}.

Abbreviation TSelf := (SimCLR R Model Optimizer Scheduler Criterion Device).

(** The model, the optimizer, the scheduler and the gradient scaler share
    their parameters: the collaborators act on all four together. *)
Abbreviation Parts := (Model * Optimizer * Scheduler * Scaler)%type.

(** [GradScaler()]. *)
Variable grad_scaler : Scaler.
(** [self.model(images)]: the features, one row per image in practice. *)
Variable model_call : Parts -> list Img -> tensor2 R * Parts.
(** [self.optimizer.zero_grad()]. *)
Variable zero_grad : Parts -> Parts.
(** [scaler.scale(loss).backward()]. *)
Variable backward : Parts -> R -> Parts.
(** [scaler.step(self.optimizer)]. *)
Variable scaler_step : Parts -> Parts.
(** [scaler.update()]. *)
Variable scaler_update : Parts -> Parts.
(** [self.scheduler.step()]. *)
Variable scheduler_step : Parts -> Parts.
(** [self.scheduler.get_last_lr()[0]]. *)
Variable get_last_lr : Parts -> R.

(** The object, the local variables [scaler], [n_iter] and [loss] (unbound
    until the first batch), and the events so far. *)
Record tstate : Type := {
  ts_self : TSelf;
  ts_scaler : Scaler;
  n_iter : Z;
  loss : option R;
  log : list event
}.

Definition parts (st : tstate) : Parts :=
  (model (ts_self st), optimizer (ts_self st), scheduler (ts_self st),
   ts_scaler st).

(** The state after a collaborator call [e] that left the parts [p]. *)
Definition after (st : tstate) (e : event) (p : Parts) : tstate :=
  {| ts_self :=
       {| device := device (ts_self st);
          model := fst (fst (fst p));
          optimizer := snd (fst (fst p));
          scheduler := snd (fst p);
          criterion := criterion (ts_self st);
          temperature := temperature (ts_self st);
          batch_size := batch_size (ts_self st);
          epochs := epochs (ts_self st) |};
     ts_scaler := snd p;
     n_iter := n_iter st;
     loss := loss st;
     log := log st ++ [e] |}.

Definition with_self (st : tstate) (s : TSelf) : tstate :=
  {| ts_self := s; ts_scaler := ts_scaler st; n_iter := n_iter st;
     loss := loss st; log := log st |}.

Definition with_loss (st : tstate) (l : R) : tstate :=
  {| ts_self := ts_self st; ts_scaler := ts_scaler st; n_iter := n_iter st;
     loss := Some l; log := log st |}.

Definition count_iter (st : tstate) : tstate :=
  {| ts_self := ts_self st; ts_scaler := ts_scaler st;
     n_iter := (n_iter st + 1)%Z; loss := loss st; log := log st |}.

Definition printed (st : tstate) (e : event) : tstate :=
  {| ts_self := ts_self st; ts_scaler := ts_scaler st; n_iter := n_iter st;
     loss := loss st; log := log st ++ [e] |}.

(** The body of the inner loop on one batch [images] (the list of views). *)
Definition train_batch (st : tstate) (images : list (list Img))
  : outcome tstate :=
  match cat_rows images with
  | inl e => Raised (TensorError e) st
  | inr images =>
      let images := to images (device (ts_self st)) in
      let (features, p) := model_call (parts st) images in
      let st := after st ModelCall p in
      match info_nce_loss features (ts_self st) with
      | (inl e, s) => Raised (TensorError e) (with_self st s)
      | (inr (logits, labels), s) =>
          let st := with_self st s in
          match cross_entropy logits labels with
          | inl e => Raised e st
          | inr l =>
              let st := with_loss st l in
              let st := after st ZeroGrad (zero_grad (parts st)) in
              let st := after st Backward (backward (parts st) l) in
              let st := after st ScalerStep (scaler_step (parts st)) in
              let st := after st ScalerUpdate (scaler_update (parts st)) in
              Done (count_iter st)
          end
      end
  end.

(** [for images, _ in tqdm(train_loader)]. *)
Fixpoint train_batches (st : tstate) (batches : list (list (list Img)))
  : outcome tstate :=
  match batches with
  | [] => Done st
  | b :: batches' =>
      match train_batch st b with
      | Done st' => train_batches st' batches'
      | Raised e st' => Raised e st'
      end
  end.

(** One epoch: the batches the loader yields in this epoch, the scheduler
    step from epoch 5 on, and the line printed, which reads [loss]. *)
Definition train_epoch (loader : nat -> list (list (list Img)))
  (dataset_len : Z) (st : tstate) (epoch_counter : nat) : outcome tstate :=
  match train_batches st (loader epoch_counter) with
  | Raised e st' => Raised e st'
  | Done st =>
      let st := if 5 <=? epoch_counter
                then after st SchedulerStep (scheduler_step (parts st))
                else st in
      match loss st with
      | None => Raised UnboundLocalError st
      | Some l =>
          Done (printed st (PrintEpoch epoch_counter l dataset_len
                              (get_last_lr (parts st))))
      end
  end.

Fixpoint train_epochs (loader : nat -> list (list (list Img)))
  (dataset_len : Z) (st : tstate) (epoch_counters : list nat)
  : outcome tstate :=
  match epoch_counters with
  | [] => Done st
  | k :: rest =>
      match train_epoch loader dataset_len st k with
      | Done st' => train_epochs loader dataset_len st' rest
      | Raised e st' => Raised e st'
      end
  end.

(** [SimCLR.train(train_loader)]: [loader k] is what iterating the loader
    yields in epoch [k], [dataset_len] is [len(train_loader.dataset)]. *)
Definition train (self : TSelf) (loader : nat -> list (list (list Img)))
  (dataset_len : Z) : outcome tstate :=
  let st := {| ts_self := self; ts_scaler := grad_scaler; n_iter := 0%Z;
               loss := None; log := [PrintStart (epochs self)] |} in
  match train_epochs loader dataset_len st
          (seq 0 (Z.to_nat (epochs self))) with
  | Done st => Done (printed st PrintFinished)
  | Raised e st => Raised e st
  end.

End Train.

(** Counting the events of one kind in a log. *)
Definition is_model_call (e : event) : bool :=
  match e with ModelCall => true | _ => false end.

Definition is_scaler_step (e : event) : bool :=
  match e with ScalerStep => true | _ => false end.

Definition is_scheduler_step (e : event) : bool :=
  match e with SchedulerStep => true | _ => false end.

Definition is_print_epoch (e : event) : bool :=
  match e with PrintEpoch _ _ _ _ => true | _ => false end.

Definition count (p : event -> bool) (l : list event) : nat :=
  length (filter p l).

(** The events of one iteration of the inner loop. *)
Definition batch_events : list event :=
  [ModelCall; ZeroGrad; Backward; ScalerStep; ScalerUpdate].

(** The attributes of the object other than the model, the optimizer and
    the scheduler. *)
Definition config {F Model Optimizer Scheduler Criterion Device : Type}
  (s : SimCLR F Model Optimizer Scheduler Criterion Device)
  : Device * Criterion * F * Z * Z :=
  (device s, criterion s, temperature s, batch_size s, epochs s).

(** What iterating [DataLoader(samples, batch_size, shuffle=True,
    drop_last)] over a non-empty list of two-view samples yields in epoch
    [k], the loader visiting the samples in the order [order k samples]. *)
Definition view_loader {Img L : Type}
  (order : nat -> list (Img * Img * L) -> list (Img * Img * L))
  (batch_size : Z) (drop_last : bool) (samples : list (Img * Img * L))
  (k : nat) : list (list (list Img)) :=
  match data_loader batch_size drop_last (order k samples) with
  | inl _ => []
  | inr batches => map collate_views batches
  end.

(** ** Sample collaborators for the training loop *)

(** A model that encodes the image [i] as the row [[i]] and keeps no
    state; an optimizer, scheduler and scaler without state. *)
Definition toy_model (p : unit * unit * unit * unit) (imgs : list nat)
  : tensor2 R * (unit * unit * unit * unit) :=
  (Tensor2 1 (map (fun i => [INR i]) imgs), p).

Definition toy_step (p : unit * unit * unit * unit)
  : unit * unit * unit * unit := p.

Definition toy_backward (p : unit * unit * unit * unit) (l : R)
  : unit * unit * unit * unit := p.

Definition toy_lr (p : unit * unit * unit * unit) : R := 0%R.

(** Two-view samples: the views of sample [k] are the images [2k] and
    [2k + 1]. *)
Definition toy_samples (n : nat) : list (nat * nat * unit) :=
  map (fun k => (2 * k, 2 * k + 1, tt)) (seq 0 n).

(** A loader that visits the samples in their own order. *)
Definition in_order (k : nat) (l : list (nat * nat * unit))
  : list (nat * nat * unit) := l.

(** A labelled dataset and the indices that sort its labels. *)
Definition toy_dataset : list (nat * Z) := [(10, 2%Z); (11, 0%Z); (12, 1%Z)].
Definition toy_sort (labels : list Z) : list nat := [1; 2; 0].
Definition toy_encode (i : nat) : list nat := [i].

(** A batch with an all-zero embedding. *)
Definition zero_first : tensor2 R := Tensor2 2 [[0; 0]; [0; 1]]%R.

(** * Facts about the tensor operations *)

Section ListFacts.

Context {A B C : Type}.

Lemma select_row_map (f : A -> B) (g : A -> bool) (l : list A) :
  select_row (map f l) (map g l) = map f (filter g l).
Proof.
  unfold select_row.
  induction l as [|x l IH]; simpl; [reflexivity|].
  destruct (g x); simpl; now rewrite IH.
Qed.

Lemma map2_map {X} (h : A -> B -> C) (f : X -> A) (g : X -> B) (l : list X) :
  map2 h (map f l) (map g l) = map (fun x => h (f x) (g x)) l.
Proof.
  induction l as [|x l IH]; simpl; [reflexivity|]. now rewrite IH.
Qed.

Lemma length_map2 (h : A -> B -> C) (l : list A) (m : list B) :
  length l = length m -> length (map2 h l m) = length l.
Proof.
  revert m. induction l as [|x l IH]; intros [|y m]; simpl; try discriminate.
  - reflexivity.
  - intros E. f_equal. apply IH. now injection E.
Qed.

Lemma length_concat_uniform (c : nat) (rs : list (list A)) :
  Forall (fun r => length r = c) rs -> length (concat rs) = length rs * c.
Proof.
  induction 1 as [|r rs Hr _ IH]; simpl; [reflexivity|].
  rewrite length_app, IH, Hr. reflexivity.
Qed.

Lemma chunks_concat (c : nat) (rs : list (list A)) :
  Forall (fun r => length r = c) rs -> chunks (length rs) c (concat rs) = rs.
Proof.
  induction 1 as [|r rs Hr _ IH]; simpl; [reflexivity|].
  rewrite firstn_app, skipn_app, Hr, Nat.sub_diag.
  rewrite firstn_all2, skipn_all2 by lia.
  simpl. rewrite app_nil_r, IH. reflexivity.
Qed.

(** Viewing the row-major elements of [r > 0] rows of [c] elements as [r]
    rows gives the rows back. *)
Lemma view_concat (c : nat) (rs : list (list A)) :
  rs <> [] -> Forall (fun r => length r = c) rs ->
  view (concat rs) (length rs) = inr (Tensor2 c rs).
Proof.
  intros Hne Hall. unfold view.
  rewrite (length_concat_uniform c rs Hall), (Nat.mul_comm (length rs) c).
  assert (Hpos : 0 < length rs) by (destruct rs; [congruence | simpl; lia]).
  rewrite Nat.Div0.mod_mul, Nat.div_mul by lia.
  replace (0 <? length rs) with true by (symmetry; apply Nat.ltb_lt; lia).
  simpl. rewrite orb_true_r.
  replace (length rs =? 0) with false by (symmetry; apply Nat.eqb_neq; lia).
  now rewrite (chunks_concat c rs Hall).
Qed.

(** No row count makes [view(0, -1)] meaningful. *)
Lemma view_zero (l : list A) : view l 0 = inl RuntimeError.
Proof.
  unfold view. destruct (length l =? 0); reflexivity.
Qed.

End ListFacts.

(** ** Columns left after dropping one or two of them *)

Lemma filter_seq_none (p : nat -> bool) (a n : nat) :
  (forall j, a <= j < a + n -> p j = false) -> filter p (seq a n) = [].
Proof.
  revert a. induction n as [|n IH]; intros a H; simpl; [reflexivity|].
  rewrite H by lia. apply IH. intros j Hj. apply H. lia.
Qed.

Lemma filter_seq_all (p : nat -> bool) (a n : nat) :
  (forall j, a <= j < a + n -> p j = true) -> filter p (seq a n) = seq a n.
Proof.
  revert a. induction n as [|n IH]; intros a H; simpl; [reflexivity|].
  rewrite H by lia. f_equal. apply IH. intros j Hj. apply H. lia.
Qed.

Lemma seq_split3 (n i : nat) :
  i < n -> seq 0 n = seq 0 i ++ i :: seq (S i) (n - S i).
Proof.
  intros Hi. replace n with (i + S (n - S i)) at 1 by lia.
  rewrite seq_app. reflexivity.
Qed.

Lemma drop_col_eq (n i : nat) :
  i < n -> drop_col n i = seq 0 i ++ seq (S i) (n - S i).
Proof.
  intros Hi. unfold drop_col. rewrite (seq_split3 n i Hi) at 1.
  rewrite filter_app. simpl. rewrite Nat.eqb_refl. simpl.
  rewrite !filter_seq_all; [reflexivity| |];
    intros j Hj; apply negb_true_iff, Nat.eqb_neq; lia.
Qed.

Lemma length_drop_col (n i : nat) : i < n -> length (drop_col n i) = n - 1.
Proof.
  intros Hi. rewrite (drop_col_eq n i Hi), length_app, !length_seq. lia.
Qed.

Lemma in_drop_col (n i j : nat) : In j (drop_col n i) <-> j < n /\ j <> i.
Proof.
  unfold drop_col. rewrite filter_In, in_seq, negb_true_iff, Nat.eqb_neq. lia.
Qed.

Lemma filter_eqb_seq (n k : nat) :
  k < n -> filter (fun j => j =? k) (seq 0 n) = [k].
Proof.
  intros Hk. rewrite (seq_split3 n k Hk), filter_app. simpl.
  rewrite Nat.eqb_refl, !filter_seq_none; [reflexivity| |];
    intros j Hj; apply Nat.eqb_neq; lia.
Qed.

Lemma filter_filter {A} (p q : A -> bool) (l : list A) :
  filter p (filter q l) = filter (fun x => q x && p x) l.
Proof.
  induction l as [|x l IH]; simpl; [reflexivity|].
  destruct (q x); simpl; [destruct (p x)|]; now rewrite IH.
Qed.

Lemma map_seq_shift {A} (f : nat -> A) (a n : nat) :
  map f (seq a n) = map (fun k => f (a + k)) (seq 0 n).
Proof.
  revert a. induction n as [|n IH]; intros a; simpl; [reflexivity|].
  rewrite Nat.add_0_r. f_equal.
  rewrite IH, <- seq_shift, map_map.
  apply map_ext. intros k. f_equal. lia.
Qed.

Lemma nth_map_seq {A} (f : nat -> A) (n i : nat) (d : A) :
  i < n -> nth i (map f (seq 0 n)) d = f i.
Proof.
  intros Hi.
  rewrite (nth_indep _ d (f 0)) by (rewrite length_map, length_seq; lia).
  rewrite map_nth, seq_nth by lia. reflexivity.
Qed.

(** ** The positive and the negatives of an anchor *)

Lemma partner_lt (N i : nat) : i < 2 * N -> partner N i < 2 * N.
Proof. unfold partner. destruct (Nat.ltb_spec i N); lia. Qed.

Lemma partner_neq (N i : nat) : i < 2 * N -> partner N i <> i.
Proof. unfold partner. destruct (Nat.ltb_spec i N); lia. Qed.

Lemma partner_involutive (N i : nat) :
  i < 2 * N -> partner N (partner N i) = i.
Proof.
  unfold partner. intros Hi.
  destruct (Nat.ltb_spec i N);
    [destruct (Nat.ltb_spec (i + N) N) | destruct (Nat.ltb_spec (i - N) N)]; lia.
Qed.

(** Two distinct positions show the same sample exactly when they are
    partners. *)
Lemma same_sample_partner (N i j : nat) :
  i < 2 * N -> j < 2 * N -> j <> i ->
  Z.eqb (sample N j) (sample N i) = (j =? partner N i).
Proof.
  unfold sample, partner. intros Hi Hj Hji.
  destruct (Nat.ltb_spec j N), (Nat.ltb_spec i N);
    match goal with
    | |- Z.eqb ?a ?b = (?c =? ?d) =>
        destruct (Z.eqb_spec a b), (Nat.eqb_spec c d); try reflexivity; lia
    end.
Qed.

(** Among the columns other than [i], exactly the partner's shows the same
    sample. *)
Lemma positive_cols (N i : nat) :
  i < 2 * N ->
  filter (fun j => Z.eqb (sample N j) (sample N i)) (drop_col (2 * N) i)
  = [partner N i].
Proof.
  intros Hi. unfold drop_col. rewrite filter_filter.
  rewrite <- (filter_eqb_seq (2 * N) (partner N i) (partner_lt N i Hi)).
  apply filter_ext_in. intros j Hj. apply in_seq in Hj.
  destruct (Nat.eqb_spec i j) as [->|Hne]; simpl.
  - symmetry. apply Nat.eqb_neq. intros E. now apply (partner_neq N j).
  - apply same_sample_partner; lia.
Qed.

Lemma negative_cols_eq (N i : nat) :
  i < 2 * N ->
  filter (fun j => negb (Z.eqb (sample N j) (sample N i))) (drop_col (2 * N) i)
  = negative_cols N i.
Proof.
  intros Hi. unfold drop_col, negative_cols. rewrite filter_filter.
  apply filter_ext_in. intros j Hj. apply in_seq in Hj.
  rewrite (Nat.eqb_sym i j).
  destruct (Nat.eqb_spec j i) as [->|Hne]; simpl; [reflexivity|].
  now rewrite same_sample_partner by lia.
Qed.

Lemma in_negative_cols (N i j : nat) :
  In j (negative_cols N i) <-> j < 2 * N /\ j <> i /\ j <> partner N i.
Proof.
  unfold negative_cols.
  rewrite filter_In, in_seq, andb_true_iff, !negb_true_iff, !Nat.eqb_neq. lia.
Qed.

(** The negatives are the columns [0 .. 2N-1] without [i] and its partner. *)
Lemma length_negative_cols (N i : nat) :
  i < 2 * N -> length (negative_cols N i) = 2 * N - 2.
Proof.
  intros Hi. unfold negative_cols.
  assert (E : filter (fun j => negb (j =? i) && negb (j =? partner N i))
                     (seq 0 (2 * N))
              = filter (fun j => negb (partner N i =? j)) (drop_col (2 * N) i)).
  { unfold drop_col. rewrite filter_filter. apply filter_ext. intros j.
    now rewrite (Nat.eqb_sym i j), (Nat.eqb_sym (partner N i) j). }
  rewrite E, (drop_col_eq (2 * N) i Hi), filter_app, length_app.
  pose proof (partner_lt N i Hi) as Hp. pose proof (partner_neq N i Hi) as Hn.
  destruct (Nat.lt_ge_cases (partner N i) i) as [Hlt|Hge].
  - change (filter (fun j => negb (partner N i =? j)) (seq 0 i))
      with (drop_col i (partner N i)).
    rewrite (length_drop_col i (partner N i) Hlt), filter_seq_all, length_seq; [lia|].
    intros j Hj. apply negb_true_iff, Nat.eqb_neq. lia.
  - rewrite filter_seq_all, length_seq
      by (intros j Hj; apply negb_true_iff, Nat.eqb_neq; lia).
    assert (Hs : seq (S i) (2 * N - S i)
                 = seq (S i) (partner N i - S i) ++ partner N i
                   :: seq (S (partner N i)) (2 * N - S (partner N i))).
    { replace (2 * N - S i)
        with ((partner N i - S i) + S (2 * N - S (partner N i))) at 1 by lia.
      rewrite seq_app. simpl. repeat f_equal; lia. }
    rewrite Hs, filter_app, length_app. simpl. rewrite Nat.eqb_refl. simpl.
    rewrite !filter_seq_all, !length_seq; [lia| |];
      intros j Hj; apply negb_true_iff, Nat.eqb_neq; lia.
Qed.

(** A filter of [seq] keeps the increasing order of the columns. *)
Lemma filter_seq_sorted (p : nat -> bool) (a n : nat) :
  StronglySorted lt (filter p (seq a n)).
Proof.
  revert a. induction n as [|n IH]; intros a; simpl; [constructor|].
  destruct (p a); [|apply IH].
  constructor; [apply IH|].
  apply Forall_forall. intros j Hj. apply filter_In in Hj as [Hj _].
  apply in_seq in Hj. lia.
Qed.

(** ** Tensors given by their entries *)

Lemma shape0_gather {A} c l cols (f : nat -> nat -> A) :
  shape0 (gather c l cols f) = length l.
Proof. unfold shape0, gather. simpl. apply length_map. Qed.

Section Gather.

Context {A : Type}.

Lemma gather_ext c l cols cols' (f f' : nat -> nat -> A) :
  (forall i, In i l -> cols i = cols' i) ->
  (forall i j, In i l -> In j (cols i) -> f i j = f' i j) ->
  gather c l cols f = gather c l cols' f'.
Proof.
  intros Hc Hf. unfold gather. f_equal.
  apply map_ext_in. intros i Hi. rewrite <- (Hc i Hi).
  apply map_ext_in. intros j Hj. now apply Hf.
Qed.

(** Boolean indexing selects, row by row, the columns where the mask holds. *)
Lemma masked_select_gather c l cols (f : nat -> nat -> A) g :
  masked_select (gather c l cols f) (gather c l cols g)
  = inr (concat (rows (gather c l (fun i => filter (g i) (cols i)) f))).
Proof.
  unfold masked_select. rewrite !shape0_gather. simpl.
  rewrite !Nat.eqb_refl. simpl. do 2 f_equal.
  rewrite (map2_map select_row (fun i => map (f i) (cols i))
             (fun i => map (g i) (cols i))).
  apply map_ext. intros i. apply select_row_map.
Qed.

Lemma view_gather c c0 l cols (f : nat -> nat -> A) r :
  r = length l -> l <> [] -> (forall i, In i l -> length (cols i) = c) ->
  view (concat (rows (gather c0 l cols f))) r = inr (gather c l cols f).
Proof.
  intros -> Hne Hlen. unfold gather at 1. cbn [rows].
  rewrite <- (length_map (fun i => map (f i) (cols i)) l).
  rewrite (view_concat c).
  - reflexivity.
  - destruct l; [congruence | discriminate].
  - apply Forall_forall. intros x Hx. apply in_map_iff in Hx as (i & <- & Hi).
    rewrite length_map. now apply Hlen.
Qed.

Lemma cat1_gather c c' l cols cols' (f : nat -> nat -> A) :
  cat1 (gather c l cols f) (gather c' l cols' f)
  = inr (gather (c + c') l (fun i => cols i ++ cols' i) f).
Proof.
  unfold cat1. rewrite !shape0_gather, Nat.eqb_refl. unfold gather. simpl.
  do 2 f_equal.
  rewrite (map2_map (@app A) (fun i => map (f i) (cols i))
             (fun i => map (f i) (cols' i))).
  apply map_ext. intros i. now rewrite map_app.
Qed.

(** Every tensor with rows of [ncols] elements is given by its entries. *)
Lemma gather_entries (d : A) (t : tensor2 A) :
  wf t ->
  t = gather (ncols t) (seq 0 (shape0 t)) (fun _ => seq 0 (ncols t)) (entry d t).
Proof.
  destruct t as [c rs]. unfold wf, gather, shape0, entry, row. simpl.
  intros Hwf. f_equal.
  apply (nth_ext _ _ [] []).
  - now rewrite length_map, length_seq.
  - intros i Hi.
    rewrite (nth_map_seq (fun i => map (fun j => nth j (nth i rs []) d) (seq 0 c)))
      by assumption.
    assert (Hc : length (nth i rs []) = c).
    { rewrite Forall_forall in Hwf. apply Hwf. now apply nth_In. }
    apply (nth_ext _ _ d d).
    + now rewrite length_map, length_seq.
    + intros j Hj.
      rewrite (nth_map_seq (fun j => nth j (nth i rs []) d)) by lia.
      reflexivity.
Qed.

End Gather.

Lemma lnot_gather c l cols (g : nat -> nat -> bool) :
  lnot (gather c l cols g) = gather c l cols (fun i j => negb (g i j)).
Proof.
  unfold lnot, map_tensor, gather. simpl. f_equal.
  rewrite map_map. apply map_ext. intros i. apply map_map.
Qed.

Lemma eye_gather (n : nat) :
  eye n = gather n (seq 0 n) (fun _ => seq 0 n) Nat.eqb.
Proof. reflexivity. Qed.

(** The label matrix of two stacked [arange(N)]: entry [(i, j)] tells
    whether positions [i] and [j] show the same sample. *)
Lemma eq_outer_arange (N : nat) (a : list Z) :
  a = map Z.of_nat (seq 0 N) ->
  eq_outer (concat [a; a])
  = gather (2 * N) (seq 0 (2 * N)) (fun _ => seq 0 (2 * N))
           (fun i j => Z.eqb (sample N j) (sample N i)).
Proof.
  intros ->. simpl concat. rewrite app_nil_r.
  assert (E : map Z.of_nat (seq 0 N) ++ map Z.of_nat (seq 0 N)
              = map (sample N) (seq 0 (2 * N))).
  { replace (2 * N) with (N + N) by lia.
    rewrite seq_app, map_app. simpl. f_equal.
    - apply map_ext_in. intros k Hk. apply in_seq in Hk. unfold sample.
      now destruct (Nat.ltb_spec k N); [|lia].
    - rewrite (map_seq_shift (sample N) N N).
      apply map_ext. intros k. unfold sample.
      destruct (Nat.ltb_spec (N + k) N); [lia|]. f_equal. lia. }
  rewrite E. unfold eq_outer, gather.
  rewrite length_map, length_seq. f_equal.
  rewrite map_map. apply map_ext. intros i. apply map_map.
Qed.

(** * The loss, step by step *)

Section Pipeline.

Context {F : Type} {SF : Scalar F}.
Context {Model Optimizer Scheduler Criterion Device : Type}.

Abbreviation Self := (SimCLR F Model Optimizer Scheduler Criterion Device).

Lemma nonzero_float_of_bool (b : bool) : nonzero (float_of_bool b) = b.
Proof. destruct b; [apply nonzero_fone | apply nonzero_fzero]. Qed.

Lemma to_float_gather c l cols (g : nat -> nat -> bool) :
  to_float (gather c l cols g)
  = gather c l cols (fun i j => float_of_bool (g i j)).
Proof.
  unfold to_float, map_tensor, gather. simpl. f_equal.
  rewrite map_map. apply map_ext. intros i. apply map_map.
Qed.

(** [.bool()] undoes [.float()]. *)
Lemma to_bool_gather c l cols (g : nat -> nat -> bool) :
  to_bool (gather c l cols (fun i j => float_of_bool (g i j)))
  = gather c l cols g.
Proof.
  unfold to_bool, map_tensor, gather. simpl. f_equal.
  rewrite map_map. apply map_ext. intros i. rewrite map_map.
  apply map_ext. intros j. apply nonzero_float_of_bool.
Qed.

Lemma div_scalar_gather c l cols (f : nat -> nat -> F) (t : F) :
  div_scalar (gather c l cols f) t
  = gather c l cols (fun i j => fdiv (f i j) t).
Proof.
  unfold div_scalar, map_tensor, gather. simpl. f_equal.
  rewrite map_map. apply map_ext. intros i. apply map_map.
Qed.

(** The product of the normalized features with their transpose never
    fails: the inner dimensions agree by construction. *)
Lemma matmul_normalize (features : tensor2 F) :
  matmul (normalize features) (transpose (normalize features))
  = inr (similarity features).
Proof.
  unfold matmul, similarity, transpose, shape0. simpl.
  now rewrite length_map, length_seq, Nat.eqb_refl.
Qed.

Lemma shape0_similarity (features : tensor2 F) :
  shape0 (similarity features) = shape0 features.
Proof. unfold similarity, normalize, shape0. simpl. now rewrite !length_map. Qed.

Lemma ncols_similarity (features : tensor2 F) :
  ncols (similarity features) = shape0 features.
Proof. unfold similarity, normalize, shape0. simpl. now rewrite !length_map. Qed.

Lemma wf_similarity (features : tensor2 F) : wf (similarity features).
Proof.
  unfold wf. rewrite ncols_similarity. unfold similarity. simpl.
  apply Forall_forall. intros r Hr. apply in_map_iff in Hr as (ra & <- & _).
  rewrite length_map, length_seq. unfold normalize, shape0. simpl.
  apply length_map.
Qed.

Lemma similarity_gather (features : tensor2 F) :
  similarity features
  = gather (shape0 features) (seq 0 (shape0 features))
           (fun _ => seq 0 (shape0 features)) (sim features).
Proof.
  rewrite (gather_entries fzero (similarity features) (wf_similarity features))
    at 1.
  now rewrite ncols_similarity, shape0_similarity.
Qed.

Lemma seq_nonempty (n : nat) : 1 <= n -> seq 0 n <> [].
Proof. destruct n; [lia | discriminate]. Qed.

(** On a batch of [2N] rows with [batch_size = N >= 1] every step succeeds;
    the object is handed back as it was. *)
Lemma info_nce_loss_ok (self : Self) (features : tensor2 F) (N : nat) :
  batch_size self = Z.of_nat N -> 1 <= N -> shape0 features = 2 * N ->
  info_nce_loss features self
  = (inr (logits_of features (temperature self) N, zeros (2 * N)), self).
Proof.
  intros Hbs HN Hlen.
  assert (Hne : seq 0 (2 * N) <> []) by (apply seq_nonempty; lia).
  unfold info_nce_loss, bind, getattr, lift, ret, to.
  unfold arange. rewrite Hbs.
  replace (Z.of_nat N <? 0)%Z with false by (symmetry; apply Z.ltb_ge; lia).
  rewrite Nat2Z.id.
  rewrite (eq_outer_arange N _ eq_refl), to_float_gather.
  rewrite matmul_normalize, similarity_gather, Hlen.
  rewrite !shape0_gather, length_seq, eye_gather, lnot_gather.
  (* labels[~mask].view(labels.shape[0], -1) *)
  rewrite masked_select_gather.
  rewrite (view_gather (2 * N - 1)); [|now rewrite length_seq|assumption|].
  2:{ intros i Hi. apply in_seq in Hi. apply length_drop_col. lia. }
  (* similarity_matrix[~mask].view(similarity_matrix.shape[0], -1) *)
  rewrite masked_select_gather.
  rewrite (view_gather (2 * N - 1)); [|now rewrite length_seq|assumption|].
  2:{ intros i Hi. apply in_seq in Hi. apply length_drop_col. lia. }
  rewrite !shape0_gather, length_seq.
  (* positives *)
  rewrite to_bool_gather, masked_select_gather.
  rewrite (view_gather 1); [|now rewrite length_seq|assumption|].
  2:{ intros i Hi. apply in_seq in Hi.
      change (filter (fun j => negb (i =? j)) (seq 0 (2 * N)))
        with (drop_col (2 * N) i).
      now rewrite positive_cols by lia. }
  (* negatives *)
  rewrite lnot_gather, masked_select_gather.
  rewrite (view_gather (2 * N - 2)); [|now rewrite length_seq|assumption|].
  2:{ intros i Hi. apply in_seq in Hi.
      change (filter (fun j => negb (i =? j)) (seq 0 (2 * N)))
        with (drop_col (2 * N) i).
      rewrite negative_cols_eq by lia. apply length_negative_cols. lia. }
  (* logits *)
  rewrite cat1_gather, shape0_gather, length_seq, div_scalar_gather.
  unfold logits_of. do 3 f_equal.
  replace (1 + (2 * N - 2)) with (2 * N - 1) by lia.
  apply gather_ext; [|reflexivity].
  intros i Hi. apply in_seq in Hi.
  change (filter (fun j => negb (i =? j)) (seq 0 (2 * N)))
    with (drop_col (2 * N) i).
  rewrite positive_cols, negative_cols_eq by lia. reflexivity.
Qed.

(** A negative [batch_size] is refused by [arange]. *)
Lemma info_nce_loss_negative (self : Self) (features : tensor2 F) :
  (batch_size self < 0)%Z ->
  info_nce_loss features self = (inl RuntimeError, self).
Proof.
  intros Hbs. unfold info_nce_loss, bind, getattr, lift, ret, to, arange.
  now replace (batch_size self <? 0)%Z with true
    by (symmetry; apply Z.ltb_lt; lia).
Qed.

(** With [batch_size = 0] the label matrix is empty and its [view(0, -1)]
    is ambiguous. *)
Lemma info_nce_loss_zero (self : Self) (features : tensor2 F) :
  batch_size self = 0%Z ->
  info_nce_loss features self = (inl RuntimeError, self).
Proof.
  intros Hbs. unfold info_nce_loss, bind, getattr, lift, ret, to.
  rewrite Hbs. unfold arange. change (0 <? 0)%Z with false.
  change (Z.to_nat 0) with 0. cbv iota.
  rewrite (eq_outer_arange 0 _ eq_refl), to_float_gather.
  rewrite matmul_normalize.
  rewrite !shape0_gather, length_seq, eye_gather, lnot_gather.
  rewrite masked_select_gather. simpl Nat.mul.
  now rewrite view_zero.
Qed.

(** With [batch_size = N >= 1] and a batch that does not have [2N] rows the
    diagonal mask does not fit the similarity matrix. *)
Lemma info_nce_loss_mismatch (self : Self) (features : tensor2 F) (N : nat) :
  batch_size self = Z.of_nat N -> 1 <= N -> shape0 features <> 2 * N ->
  info_nce_loss features self = (inl IndexError, self).
Proof.
  intros Hbs HN Hlen.
  assert (Hne : seq 0 (2 * N) <> []) by (apply seq_nonempty; lia).
  unfold info_nce_loss, bind, getattr, lift, ret, to.
  unfold arange. rewrite Hbs.
  replace (Z.of_nat N <? 0)%Z with false by (symmetry; apply Z.ltb_ge; lia).
  rewrite Nat2Z.id.
  rewrite (eq_outer_arange N _ eq_refl), to_float_gather.
  rewrite matmul_normalize.
  rewrite !shape0_gather, length_seq, eye_gather, lnot_gather.
  rewrite masked_select_gather.
  rewrite (view_gather (2 * N - 1)); [|now rewrite length_seq|assumption|].
  2:{ intros i Hi. apply in_seq in Hi. apply length_drop_col. lia. }
  unfold masked_select at 1.
  rewrite shape0_similarity, shape0_gather, length_seq.
  now replace (shape0 features =? 2 * N) with false
    by (symmetry; apply Nat.eqb_neq; lia).
Qed.

End Pipeline.

(** * Entries of the similarity matrix and of the logits *)

Lemma nth_map_in {A B} (f : A -> B) (l : list A) (i : nat) (d : A) (d' : B) :
  i < length l -> nth i (map f l) d' = f (nth i l d).
Proof.
  intros Hi. rewrite (nth_indep _ d' (f d)) by now rewrite length_map.
  apply map_nth.
Qed.

Lemma row_gather {A} c n cols (f : nat -> nat -> A) (i : nat) :
  i < n -> row (gather c (seq 0 n) cols f) i = map (f i) (cols i).
Proof.
  intros Hi. unfold row, gather. simpl.
  now rewrite (nth_map_seq (fun i => map (f i) (cols i))).
Qed.

Section Entries.

Context {F : Type} {SF : Scalar F}.

Lemma row_normalize (features : tensor2 F) (i : nat) :
  row (normalize features) i = normalize_row (row features i).
Proof.
  unfold row, normalize. simpl.
  change (@nil F) with (normalize_row []) at 1. apply map_nth.
Qed.

Lemma length_normalize_row (v : list F) :
  length (normalize_row v) = length v.
Proof. apply length_map. Qed.

(** Column [j] of the transpose is row [j]. *)
Lemma col_transpose (t : tensor2 F) (j : nat) :
  wf t -> j < shape0 t -> col (transpose t) j = row t j.
Proof.
  intros Hwf Hj. unfold col, transpose, row. simpl. rewrite map_map.
  assert (Hc : length (nth j (rows t) []) = ncols t).
  { unfold wf in Hwf. rewrite Forall_forall in Hwf. apply Hwf. now apply nth_In. }
  apply (nth_ext _ _ fzero fzero).
  - now rewrite length_map, length_seq.
  - intros k Hk. rewrite length_map, length_seq in Hk.
    rewrite (nth_map_seq (fun x => nth j (col t x) fzero)) by assumption.
    unfold col. now rewrite (nth_map_in _ _ _ []).
Qed.

Lemma wf_normalize (t : tensor2 F) : wf t -> wf (normalize t).
Proof.
  unfold wf, normalize. simpl. intros Hwf.
  apply Forall_forall. intros r Hr. apply in_map_iff in Hr as (v & <- & Hv).
  rewrite length_normalize_row. rewrite Forall_forall in Hwf. now apply Hwf.
Qed.

(** Entry [(i, j)] of the similarity matrix is the dot product of the
    normalized embeddings [i] and [j]. *)
Lemma sim_dot (features : tensor2 F) (i j : nat) :
  wf features -> i < shape0 features -> j < shape0 features ->
  sim features i j
  = dot (normalize_row (row features i)) (normalize_row (row features j)).
Proof.
  intros Hwf Hi Hj. unfold sim, entry, row at 1, similarity. cbn [rows].
  assert (Hn : shape0 (normalize features) = shape0 features).
  { unfold shape0, normalize. simpl. apply length_map. }
  rewrite Hn.
  rewrite (nth_map_in _ _ _ []) by (fold (shape0 (normalize features)); lia).
  rewrite (nth_map_seq _ _ _ _ Hj).
  fold (row (normalize features) i).
  rewrite col_transpose by (try apply wf_normalize; try lia; assumption).
  now rewrite !row_normalize.
Qed.

Lemma sim_overflow_row (features : tensor2 F) (i j : nat) :
  shape0 features <= i -> sim features i j = fzero.
Proof.
  intros Hi. unfold sim, entry, row.
  rewrite (nth_overflow (rows (similarity features)))
    by (fold (shape0 (similarity features)); now rewrite shape0_similarity).
  now destruct j.
Qed.

Lemma sim_overflow_col (features : tensor2 F) (i j : nat) :
  shape0 features <= j -> sim features i j = fzero.
Proof.
  intros Hj. destruct (Nat.lt_ge_cases i (shape0 features)) as [Hi|Hi];
    [|now apply sim_overflow_row].
  unfold sim, entry. apply nth_overflow.
  pose proof (wf_similarity features) as Hwf. unfold wf in Hwf.
  rewrite Forall_forall in Hwf. unfold row. rewrite Hwf.
  - now rewrite ncols_similarity.
  - apply nth_In. fold (shape0 (similarity features)).
    now rewrite shape0_similarity.
Qed.

Lemma dot_comm (u v : list F) :
  (forall a b : F, fmul a b = fmul b a) -> dot u v = dot v u.
Proof.
  intros Hmul. unfold dot. revert v.
  induction u as [|a u IH]; intros [|b v]; simpl; try reflexivity.
  now rewrite IH, (Hmul a b).
Qed.

End Entries.

(** * Properties of the scorer *)

Section Properties.

Context {F : Type} {SF : Scalar F}.
Context {Model Optimizer Scheduler Criterion Device : Type}.

Abbreviation Self := (SimCLR F Model Optimizer Scheduler Criterion Device).

Lemma length_logit_cols (N i : nat) :
  i < 2 * N -> 1 <= N -> length (logit_cols N i) = 2 * N - 1.
Proof.
  intros Hi HN. unfold logit_cols. simpl.
  rewrite length_negative_cols by assumption. lia.
Qed.

Lemma not_in_logit_cols (N i : nat) : i < 2 * N -> ~ In i (logit_cols N i).
Proof.
  intros Hi [E|Hin].
  - now apply (partner_neq N i).
  - apply in_negative_cols in Hin. lia.
Qed.

Lemma logit_cols_lt (N i : nat) :
  i < 2 * N -> Forall (fun j => j < 2 * N) (logit_cols N i).
Proof.
  intros Hi. constructor; [now apply partner_lt|].
  apply Forall_forall. intros j Hj. apply in_negative_cols in Hj. lia.
Qed.

Lemma row_logits_of (features : tensor2 F) (t : F) (N i : nat) :
  i < 2 * N ->
  row (logits_of features t N) i
  = map (fun j => fdiv (sim features i j) t) (logit_cols N i).
Proof. intros Hi. unfold logits_of. now rewrite row_gather. Qed.

(** C1: on a valid batch of [2N] embeddings the scorer returns a logits
    matrix of shape [2N x (2N-1)], every row of which has [2N-1] entries,
    and the labels are [2N] zeros. *)
Theorem score_shape (self : Self) (features : tensor2 F) (N : nat) :
  valid_batch self features N ->
  exists logits labels,
    info_nce_loss features self = (inr (logits, labels), self) /\
    shape0 logits = 2 * N /\
    ncols logits = 2 * N - 1 /\
    Forall (fun r => length r = 2 * N - 1) (rows logits) /\
    labels = repeat 0%Z (2 * N).
Proof.
  intros (Hbs & Hlen & HN).
  exists (logits_of features (temperature self) N), (zeros (2 * N)).
  split; [apply info_nce_loss_ok; lia|].
  unfold logits_of. rewrite shape0_gather, length_seq.
  repeat split.
  unfold gather. cbn [rows]. apply Forall_forall.
  intros r Hr. apply in_map_iff in Hr as (i & <- & Hi). apply in_seq in Hi.
  rewrite length_map. apply length_logit_cols; lia.
Qed.

(** C3, amended: a batch with an odd number of embeddings, or with none,
    makes the call raise and return no result, whatever [batch_size] is:
    [RuntimeError] from [arange] / [view] when [batch_size <= 0],
    [IndexError] from the diagonal mask otherwise.  The object is
    unchanged. *)
Theorem malformed_batch_raises (self : Self) (features : tensor2 F) :
  Nat.odd (shape0 features) = true \/ shape0 features = 0 ->
  info_nce_loss features self
  = (inl (if (batch_size self <=? 0)%Z then RuntimeError else IndexError),
     self).
Proof.
  intros Hbad.
  destruct (Z.leb_spec (batch_size self) 0) as [Hle|Hpos].
  - destruct (Z.eq_dec (batch_size self) 0) as [Hz|Hnz].
    + now apply info_nce_loss_zero.
    + apply info_nce_loss_negative. lia.
  - apply (info_nce_loss_mismatch self features (Z.to_nat (batch_size self)));
      [lia | lia |].
    intros E. destruct Hbad as [Hodd|Hzero]; [|lia].
    rewrite E, Nat.odd_mul in Hodd. discriminate.
Qed.

(** C5: on a valid batch, row [i] of the logits holds the similarities
    [sim(i, j)] for the columns [j] of [logit_cols N i] and nothing else;
    [i] itself is not among these columns, so no entry compares an
    embedding to itself. *)
Theorem self_excluded (self : Self) (features : tensor2 F) (N : nat) :
  valid_batch self features N ->
  exists logits labels,
    info_nce_loss features self = (inr (logits, labels), self) /\
    forall i, i < 2 * N ->
      row logits i
      = map (fun j => fdiv (sim features i j) (temperature self))
            (logit_cols N i) /\
      ~ In i (logit_cols N i) /\
      Forall (fun j => j < 2 * N) (logit_cols N i).
Proof.
  intros (Hbs & Hlen & HN).
  exists (logits_of features (temperature self) N), (zeros (2 * N)).
  split; [apply info_nce_loss_ok; lia|].
  intros i Hi. split; [now apply row_logits_of|].
  split; [now apply not_in_logit_cols | now apply logit_cols_lt].
Qed.

(** C6: on a valid batch, row [i] of the logits is the positive followed by
    the [2N-2] negatives; the negatives are the entries of row [i] of the
    similarity matrix at the columns other than [i] and its partner, taken
    in increasing column order. *)
Theorem negatives_in_order (self : Self) (features : tensor2 F) (N : nat) :
  valid_batch self features N ->
  exists logits labels,
    info_nce_loss features self = (inr (logits, labels), self) /\
    forall i, i < 2 * N ->
      row (similarity features) i = map (sim features i) (seq 0 (2 * N)) /\
      row logits i
      = fdiv (sim features i (partner N i)) (temperature self)
        :: map (fun j => fdiv (sim features i j) (temperature self))
               (negative_cols N i) /\
      length (negative_cols N i) = 2 * N - 2 /\
      StronglySorted lt (negative_cols N i) /\
      (forall j, In j (negative_cols N i)
                 <-> j < 2 * N /\ j <> i /\ j <> partner N i).
Proof.
  intros (Hbs & Hlen & HN).
  exists (logits_of features (temperature self) N), (zeros (2 * N)).
  split; [apply info_nce_loss_ok; lia|].
  intros i Hi.
  split; [rewrite similarity_gather, Hlen; now rewrite row_gather|].
  split; [now rewrite row_logits_of|].
  split; [now apply length_negative_cols|].
  split; [apply filter_seq_sorted|].
  intros j. apply in_negative_cols.
Qed.

(** C7: the similarity matrix computed before masking, the product of the
    normalized batch with its transpose, is symmetric. *)
Theorem similarity_symmetric (features : tensor2 F) :
  (forall a b : F, fmul a b = fmul b a) ->
  wf features ->
  matmul (normalize features) (transpose (normalize features))
  = inr (similarity features) /\
  forall i j, sim features i j = sim features j i.
Proof.
  intros Hmul Hwf. split; [apply matmul_normalize|].
  intros i j.
  destruct (Nat.lt_ge_cases i (shape0 features)) as [Hi|Hi].
  - destruct (Nat.lt_ge_cases j (shape0 features)) as [Hj|Hj].
    + rewrite !sim_dot by assumption. now apply dot_comm.
    + now rewrite sim_overflow_col, sim_overflow_row.
  - now rewrite sim_overflow_row, sim_overflow_col.
Qed.

End Properties.

(** * Real scalars: norms, cosine similarity, temperature *)

Section RealFacts.

Open Scope R_scope.

Lemma dot_div (a b : R) (u v : list R) :
  a <> 0 -> b <> 0 ->
  dot (map (fun x => fdiv x a) u) (map (fun x => fdiv x b) v)
  = dot u v / (a * b).
Proof.
  intros Ha Hb. unfold dot. revert v.
  induction u as [|x u IH]; intros [|y v]; simpl in *;
    try (field; now split).
  rewrite IH. field. now split.
Qed.

(** Where the clamp of [F.normalize] is inactive, the entries of the
    similarity matrix are cosine similarities. *)
Lemma sim_cosine (features : tensor2 R) (i j : nat) :
  wf features -> (i < shape0 features)%nat -> (j < shape0 features)%nat ->
  feps <= norm (row features i) -> feps <= norm (row features j) ->
  sim features i j = cosine_similarity (row features i) (row features j).
Proof.
  intros Hwf Hi Hj Hni Hnj. rewrite sim_dot by assumption.
  unfold normalize_row, cosine_similarity.
  remember (norm (row features i)) as a eqn:Ea. clear Ea.
  remember (norm (row features j)) as b eqn:Eb. clear Eb.
  change (@fmax R R_scalar) with Rmax.
  rewrite !Rmax_left by assumption.
  assert (He : 0 < feps) by (simpl; lra).
  apply dot_div; lra.
Qed.

(** One-dimensional embeddings. *)
Lemma norm_singleton (x : R) : 0 <= x -> norm [x] = x.
Proof.
  intros Hx. unfold norm. simpl. rewrite Rplus_0_r. now apply sqrt_square.
Qed.

End RealFacts.

(** Shapes of the sample batches. *)
Ltac shape :=
  unfold valid_batch, shape0, simclr, tiny_first, two_pairs, one_pair,
    three_rows, scale_embedding;
  cbn [rows ncols batch_size length update_nth];
  repeat split; lia.

Section RealProperties.

Context {Model Optimizer Scheduler Criterion Device : Type}.

Open Scope R_scope.

Lemma entry_map_tensor {A B} (g : A -> B) (d : A) (t : tensor2 A) (i k : nat) :
  entry (g d) (map_tensor g t) i k = g (entry d t i k).
Proof.
  unfold entry, row, map_tensor. cbn [rows].
  change (@nil B) with (map g []). now rewrite !map_nth.
Qed.

Lemma entry_logits_of (features : tensor2 R) (t : R) (N i k : nat) :
  (i < 2 * N)%nat ->
  entry 0 (logits_of features t N) i k
  = nth k (map (fun j => sim features i j / t) (logit_cols N i)) 0.
Proof. intros Hi. unfold entry. now rewrite row_logits_of. Qed.

(** The similarity of two one-dimensional embeddings [x, y >= 0]. *)
Lemma sim_singletons (features : tensor2 R) (i j : nat) (x y : R) :
  wf features -> (i < shape0 features)%nat -> (j < shape0 features)%nat ->
  row features i = [x] -> row features j = [y] -> 0 <= x -> 0 <= y ->
  sim features i j = x / Rmax x feps * (y / Rmax y feps) + 0.
Proof.
  intros Hwf Hi Hj Ei Ej Hx Hy. rewrite sim_dot by assumption.
  rewrite Ei, Ej. unfold normalize_row. rewrite !norm_singleton by assumption.
  reflexivity.
Qed.

Lemma wf_tiny_first : wf tiny_first.
Proof. repeat constructor. Qed.

Lemma sim_tiny_first : sim tiny_first 0 2 = 1 / 10.
Proof.
  rewrite (sim_singletons tiny_first 0 2 1e-13 1 wf_tiny_first);
    try reflexivity; try shape; try lra.
  simpl feps. rewrite Rmax_right, Rmax_left by lra. lra.
Qed.

Lemma sim_tiny_first_scaled :
  sim (scale_embedding 0 10 tiny_first) 0 2 = 1.
Proof.
  assert (Hwf : wf (scale_embedding 0 10 tiny_first)) by repeat constructor.
  rewrite (sim_singletons _ 0 2 (10 * 1e-13) 1 Hwf);
    try reflexivity; try shape; try lra.
  simpl feps. rewrite Rmax_right, Rmax_left by lra. lra.
Qed.

Abbreviation RSelf := (SimCLR R Model Optimizer Scheduler Criterion Device).

(** C2, the code at the failing input: the comments of [info_nce_loss]
    say that every sample is put on the hyper-sphere and that the matrix
    holds the cosine similarities of all couples, but [F.normalize]
    divides by [max(norm, eps)].  The first embedding of [tiny_first] is
    shorter than [eps]: on this valid batch, with temperature [1], the
    call returns the positive entry [1/10] for anchor [0], while the
    cosine similarity of the pair over the temperature is [1]. *)
Lemma tiny_positive_not_cosine :
  valid_batch (simclr 2 1) tiny_first 2 /\
  exists logits labels,
    info_nce_loss tiny_first (simclr 2 1)
    = (inr (logits, labels), simclr 2 1) /\
    entry 0 logits 0 0 = 1 / 10 /\
    cosine_similarity (row tiny_first 0) (row tiny_first (0 + 2))
    / temperature (simclr 2 1) = 1 /\
    entry 0 logits 0 0
    <> cosine_similarity (row tiny_first 0) (row tiny_first (0 + 2))
       / temperature (simclr 2 1).
Proof.
  split; [shape|].
  exists (logits_of tiny_first 1 2), (zeros 4).
  split; [apply (info_nce_loss_ok (simclr 2 1) tiny_first 2); shape|].
  rewrite entry_logits_of by lia.
  change (logit_cols 2 0) with [2; 1; 3]%nat. cbn [map nth].
  rewrite sim_tiny_first.
  unfold cosine_similarity. change (row tiny_first 0) with [1e-13].
  change (row tiny_first (0 + 2)) with [1].
  rewrite !norm_singleton by lra.
  unfold dot. simpl. repeat split; lra.
Qed.

(** C3, refuted as stated: a batch of one pair ([N = 1]) is accepted and
    scored. *)
Lemma one_pair_accepted :
  shape0 one_pair = (2 * 1)%nat /\
  info_nce_loss one_pair (simclr 1 1)
  = (inr (logits_of one_pair 1 1, [0; 0]%Z), simclr 1 1) /\
  shape0 (logits_of one_pair 1 1) = 2%nat /\
  ncols (logits_of one_pair 1 1) = 1%nat /\
  forall e, fst (info_nce_loss one_pair (simclr 1 1)) <> inl e.
Proof.
  assert (E : info_nce_loss one_pair (simclr 1 1)
              = (inr (logits_of one_pair 1 1, [0; 0]%Z), simclr 1 1))
    by (apply (info_nce_loss_ok (simclr 1 1) one_pair 1); shape).
  repeat split; try assumption. intros e. rewrite E. discriminate.
Qed.

(** C4, refuted as stated: with temperature [-1] the valid batch
    [two_pairs] is scored, no error is raised. *)
Lemma negative_temperature_accepted :
  valid_batch (simclr 2 (-1)) two_pairs 2 /\
  temperature (simclr 2 (-1)) <= 0 /\
  info_nce_loss two_pairs (simclr 2 (-1))
  = (inr (logits_of two_pairs (-1) 2, zeros 4), simclr 2 (-1)).
Proof.
  split; [shape|].
  split; [simpl; lra|].
  apply (info_nce_loss_ok (simclr 2 (-1)) two_pairs 2); shape.
Qed.

(** C4, amended: the temperature is not checked.  On a valid batch a
    temperature [<= 0] raises nothing: the call returns the zero labels and
    the logits whose entries are the similarities divided by that
    temperature. *)
Theorem nonpositive_temperature_accepted (self : RSelf) (features : tensor2 R)
  (N : nat) :
  valid_batch self features N -> temperature self <= 0 ->
  info_nce_loss features self
  = (inr (logits_of features (temperature self) N, zeros (2 * N)), self).
Proof.
  intros (Hbs & Hlen & HN) _. apply info_nce_loss_ok; lia.
Qed.

(** C8: for a fixed valid batch, doubling the temperature halves every
    entry of the logits. *)
Theorem double_temperature_halves (self self2 : RSelf) (features : tensor2 R)
  (N : nat) :
  valid_batch self features N -> 0 < temperature self ->
  batch_size self2 = batch_size self ->
  temperature self2 = 2 * temperature self ->
  exists logits logits2 labels,
    info_nce_loss features self = (inr (logits, labels), self) /\
    info_nce_loss features self2 = (inr (logits2, labels), self2) /\
    shape0 logits2 = shape0 logits /\ ncols logits2 = ncols logits /\
    forall i k, entry 0 logits2 i k = entry 0 logits i k / 2.
Proof.
  intros (Hbs & Hlen & HN) Ht Hbs2 Ht2.
  exists (logits_of features (temperature self) N),
         (logits_of features (temperature self2) N), (zeros (2 * N)).
  split; [apply info_nce_loss_ok; lia|].
  split; [apply info_nce_loss_ok; lia|].
  assert (E : logits_of features (temperature self2) N
              = map_tensor (fun x => x / 2)
                  (logits_of features (temperature self) N)).
  { unfold logits_of, map_tensor, gather. cbn [rows ncols]. f_equal.
    rewrite map_map. apply map_ext. intros i. rewrite map_map.
    apply map_ext. intros j. rewrite Ht2. simpl. field. lra. }
  rewrite E. split; [|split].
  - unfold shape0, map_tensor. cbn [rows]. apply length_map.
  - reflexivity.
  - intros i k.
    rewrite <- (entry_map_tensor (fun x => x / 2) 0). f_equal. lra.
Qed.

(** C10, the code at the failing input: the comment of [info_nce_loss]
    says that the normalization puts every sample on the hyper-sphere,
    which would make the logits independent of the length of an
    embedding, but [F.normalize] divides by [max(norm, eps)].  All
    embeddings of [tiny_first] are nonzero, yet multiplying the first one
    by [10] changes the result of the call: the positive entry of anchor
    [0] is [1/10] before the scaling and [1] after it. *)
Lemma tiny_scaling_changes_logits :
  valid_batch (simclr 2 1) tiny_first 2 /\
  Forall (fun v => norm v <> 0) (rows tiny_first) /\
  0 < 10 /\
  entry 0 (logits_of tiny_first (temperature (simclr 2 1)) 2) 0 0 = 1 / 10 /\
  entry 0 (logits_of (scale_embedding 0 10 tiny_first)
             (temperature (simclr 2 1)) 2) 0 0 = 1 /\
  info_nce_loss tiny_first (simclr 2 1)
  = (inr (logits_of tiny_first (temperature (simclr 2 1)) 2, zeros (2 * 2)),
     simclr 2 1) /\
  info_nce_loss (scale_embedding 0 10 tiny_first) (simclr 2 1)
  = (inr (logits_of (scale_embedding 0 10 tiny_first)
            (temperature (simclr 2 1)) 2, zeros (2 * 2)),
     simclr 2 1) /\
  fst (info_nce_loss (scale_embedding 0 10 tiny_first) (simclr 2 1))
  <> fst (info_nce_loss tiny_first (simclr 2 1)).
Proof.
  split; [shape|].
  split.
  { unfold tiny_first. cbn [rows].
    repeat constructor; rewrite norm_singleton; lra. }
  split; [lra|].
  split.
  { rewrite entry_logits_of by lia.
    change (logit_cols 2 0) with [2; 1; 3]%nat. cbn [map nth].
    rewrite sim_tiny_first. simpl. lra. }
  split.
  { rewrite entry_logits_of by lia.
    change (logit_cols 2 0) with [2; 1; 3]%nat. cbn [map nth].
    rewrite sim_tiny_first_scaled. simpl. lra. }
  split; [apply (info_nce_loss_ok (simclr 2 1) tiny_first 2); shape|].
  split; [apply (info_nce_loss_ok (simclr 2 1)
                   (scale_embedding 0 10 tiny_first) 2); shape|].
  rewrite (info_nce_loss_ok (simclr 2 1) tiny_first 2) by shape.
  rewrite (info_nce_loss_ok (simclr 2 1) (scale_embedding 0 10 tiny_first) 2)
    by shape.
  cbn [fst]. intros E.
  assert (E0 : entry 0 (logits_of (scale_embedding 0 10 tiny_first)
                          (temperature (simclr 2 1)) 2) 0 0
               = entry 0 (logits_of tiny_first (temperature (simclr 2 1)) 2)
                         0 0)
    by exact (f_equal (fun r : result (tensor2 R * list Z) =>
                         match r with
                         | inr (l, _) => entry 0 l 0 0
                         | inl _ => 0
                         end) E).
  rewrite !entry_logits_of in E0 by lia.
  change (logit_cols 2 0) with [2; 1; 3]%nat in E0. cbn [map nth] in E0.
  rewrite sim_tiny_first, sim_tiny_first_scaled in E0.
  simpl in E0. lra.
Qed.

End RealProperties.

(** * The properties on sample batches *)

Section Samples.

Open Scope R_scope.

Lemma wf_two_pairs : wf two_pairs.
Proof. repeat constructor. Qed.

Lemma norm_unit_x : norm [1; 0] = 1.
Proof.
  unfold norm. simpl.
  replace (1 * 1 + (0 * 0 + 0)) with 1 by lra. apply sqrt_1.
Qed.

Lemma valid_two_pairs (t : R) : valid_batch (simclr 2 t) two_pairs 2.
Proof. shape. Qed.

Lemma score_shape_two_pairs :
  exists logits labels,
    info_nce_loss two_pairs (simclr 2 1) = (inr (logits, labels), simclr 2 1) /\
    shape0 logits = (2 * 2)%nat /\
    ncols logits = (2 * 2 - 1)%nat /\
    Forall (fun r => length r = (2 * 2 - 1)%nat) (rows logits) /\
    labels = repeat 0%Z (2 * 2).
Proof.
  apply (score_shape (simclr 2 1) two_pairs 2).
  shape.
Defined.

Lemma malformed_batch_raises_three_rows :
  info_nce_loss three_rows (simclr 2 1)
  = (inl (if (batch_size (simclr 2 1) <=? 0)%Z
          then RuntimeError else IndexError), simclr 2 1).
Proof.
  apply (malformed_batch_raises (simclr 2 1) three_rows).
  left. reflexivity.
Defined.

Lemma nonpositive_temperature_two_pairs :
  info_nce_loss two_pairs (simclr 2 (-1))
  = (inr (logits_of two_pairs (temperature (simclr 2 (-1))) 2, zeros (2 * 2)),
     simclr 2 (-1)).
Proof.
  apply (nonpositive_temperature_accepted (simclr 2 (-1)) two_pairs 2).
  - unfold valid_batch. simpl. repeat split; lia.
  - simpl. lra.
Defined.

Lemma self_excluded_two_pairs :
  exists logits labels,
    info_nce_loss two_pairs (simclr 2 1) = (inr (logits, labels), simclr 2 1) /\
    forall i, (i < 2 * 2)%nat ->
      row logits i
      = map (fun j => fdiv (sim two_pairs i j) (temperature (simclr 2 1)))
            (logit_cols 2 i) /\
      ~ In i (logit_cols 2 i) /\
      Forall (fun j => (j < 2 * 2)%nat) (logit_cols 2 i).
Proof.
  apply (self_excluded (simclr 2 1) two_pairs 2).
  shape.
Defined.

Lemma negatives_in_order_two_pairs :
  exists logits labels,
    info_nce_loss two_pairs (simclr 2 1) = (inr (logits, labels), simclr 2 1) /\
    forall i, (i < 2 * 2)%nat ->
      row (similarity two_pairs) i = map (sim two_pairs i) (seq 0 (2 * 2)) /\
      row logits i
      = fdiv (sim two_pairs i (partner 2 i)) (temperature (simclr 2 1))
        :: map (fun j => fdiv (sim two_pairs i j) (temperature (simclr 2 1)))
               (negative_cols 2 i) /\
      length (negative_cols 2 i) = (2 * 2 - 2)%nat /\
      StronglySorted lt (negative_cols 2 i) /\
      (forall j, In j (negative_cols 2 i)
                 <-> (j < 2 * 2)%nat /\ j <> i /\ j <> partner 2 i).
Proof.
  apply (negatives_in_order (simclr 2 1) two_pairs 2).
  shape.
Defined.

Lemma similarity_symmetric_two_pairs :
  matmul (normalize two_pairs) (transpose (normalize two_pairs))
  = inr (similarity two_pairs) /\
  forall i j, sim two_pairs i j = sim two_pairs j i.
Proof.
  apply (similarity_symmetric two_pairs).
  - exact Rmult_comm.
  - exact wf_two_pairs.
Defined.

Lemma double_temperature_two_pairs :
  exists logits logits2 labels,
    info_nce_loss two_pairs (simclr 2 1) = (inr (logits, labels), simclr 2 1) /\
    info_nce_loss two_pairs (simclr 2 2) = (inr (logits2, labels), simclr 2 2) /\
    shape0 logits2 = shape0 logits /\ ncols logits2 = ncols logits /\
    forall i k, entry 0 logits2 i k = entry 0 logits i k / 2.
Proof.
  apply (double_temperature_halves (simclr 2 1) (simclr 2 2) two_pairs 2).
  - unfold valid_batch. simpl. repeat split; lia.
  - simpl. lra.
  - reflexivity.
  - simpl. lra.
Defined.

End Samples.

(** ** The worked example *)

Section WorkedExample.

Open Scope R_scope.

Lemma norm_unit_y : norm [0; 1] = 1.
Proof.
  unfold norm. simpl.
  replace (0 * 0 + (1 * 1 + 0)) with 1 by lra. apply sqrt_1.
Qed.

Lemma normalize_unit_x : normalize_row [1; 0] = [1; 0].
Proof.
  unfold normalize_row. rewrite norm_unit_x. simpl.
  rewrite Rmax_left by lra. repeat (f_equal; try lra).
Qed.

Lemma normalize_unit_y : normalize_row [0; 1] = [0; 1].
Proof.
  unfold normalize_row. rewrite norm_unit_y. simpl.
  rewrite Rmax_left by lra. repeat (f_equal; try lra).
Qed.

(** Two positions of [two_pairs] have similarity [1] when they show the
    same sample and [0] otherwise. *)
Lemma sim_two_pairs (i j : nat) :
  (i < 4)%nat -> (j < 4)%nat ->
  sim two_pairs i j = if (i mod 2 =? j mod 2)%nat then 1 else 0.
Proof.
  intros Hi Hj. rewrite sim_dot by (exact wf_two_pairs || shape).
  assert (Hrow : forall k, (k < 4)%nat ->
            normalize_row (row two_pairs k)
            = if (k mod 2 =? 0)%nat then [1; 0] else [0; 1]).
  { intros k Hk.
    destruct k as [|[|[|[|k]]]]; try lia; cbn;
      (apply normalize_unit_x || apply normalize_unit_y). }
  rewrite !Hrow by assumption.
  destruct i as [|[|[|[|i]]]]; try lia;
    destruct j as [|[|[|[|j]]]]; try lia; cbn; lra.
Qed.

(** With [N = 2], [D = 2], both views equal and temperature [1], the
    positive of every row is [1], the negatives are the similarities to the
    other sample, and the labels are zero. *)
Example worked_example :
  info_nce_loss two_pairs (simclr 2 1)
  = (inr (Tensor2 3 [[1; 0; 0]; [1; 0; 0]; [1; 0; 0]; [1; 0; 0]],
          [0; 0; 0; 0]%Z),
     simclr 2 1).
Proof.
  rewrite (info_nce_loss_ok (simclr 2 1) two_pairs 2) by shape.
  unfold logits_of, gather. do 3 f_equal.
  change (seq 0 (2 * 2)) with [0; 1; 2; 3]%nat. cbn [map].
  change (logit_cols 2 0) with [2; 1; 3]%nat.
  change (logit_cols 2 1) with [3; 0; 2]%nat.
  change (logit_cols 2 2) with [0; 1; 3]%nat.
  change (logit_cols 2 3) with [1; 0; 2]%nat.
  cbn [map]. rewrite !sim_two_pairs by lia. cbn.
  repeat (f_equal; try lra).
Qed.

End WorkedExample.

(** * Further properties of the scorer *)

Section MoreProperties.

Context {F : Type} {SF : Scalar F}.
Context {Model Optimizer Scheduler Criterion Device : Type}.

Abbreviation Self := (SimCLR F Model Optimizer Scheduler Criterion Device).

(** X1: the call returns a result exactly when [batch_size >= 1] and the
    batch has [2 * batch_size] rows; in every other case it raises. *)
Theorem info_nce_loss_returns_iff (self : Self) (features : tensor2 F) :
  (exists r, fst (info_nce_loss features self) = inr r) <->
  (1 <= batch_size self)%Z /\
  Z.of_nat (shape0 features) = (2 * batch_size self)%Z.
Proof.
  split.
  - intros [r Hr].
    destruct (Z.lt_trichotomy (batch_size self) 0) as [Hneg|[Hz|Hpos]].
    + now rewrite info_nce_loss_negative in Hr.
    + now rewrite info_nce_loss_zero in Hr.
    + split; [lia|].
      destruct (Nat.eq_dec (shape0 features) (2 * Z.to_nat (batch_size self)))
        as [E|E]; [lia|].
      now rewrite (info_nce_loss_mismatch self features
                     (Z.to_nat (batch_size self))) in Hr by lia.
  - intros [Hbs Hlen].
    rewrite (info_nce_loss_ok self features (Z.to_nat (batch_size self)))
      by lia.
    now eexists.
Qed.

Lemma NoDup_drop_col (n i : nat) : NoDup (drop_col n i).
Proof. unfold drop_col. apply NoDup_filter, seq_NoDup. Qed.

Lemma perm_pick (x : nat) (l : list nat) :
  NoDup l -> In x l ->
  Permutation (x :: filter (fun j => negb (x =? j)) l) l.
Proof.
  induction 1 as [|y l Hy Hnd IH]; intros Hin; [destruct Hin|].
  simpl. destruct (Nat.eqb_spec x y) as [->|Hne]; simpl.
  - constructor. rewrite (proj2 (filter_ext_in_iff _ (fun _ => true) l)).
    + clear. induction l; simpl; [constructor | now constructor].
    + intros j Hj. apply negb_true_iff, Nat.eqb_neq. intros ->. contradiction.
  - destruct Hin as [E|Hin]; [congruence|].
    etransitivity; [apply perm_swap|]. constructor. now apply IH.
Qed.

(** The columns behind row [i] of the logits are all the columns but [i],
    each exactly once. *)
Lemma logit_cols_permutation (N i : nat) :
  i < 2 * N -> Permutation (logit_cols N i) (drop_col (2 * N) i).
Proof.
  intros Hi. unfold logit_cols.
  assert (E : negative_cols N i
              = filter (fun j => negb (partner N i =? j)) (drop_col (2 * N) i)).
  { unfold negative_cols, drop_col. rewrite filter_filter.
    apply filter_ext. intros j.
    now rewrite (Nat.eqb_sym i j), (Nat.eqb_sym (partner N i) j). }
  rewrite E. apply perm_pick; [apply NoDup_drop_col|].
  apply in_drop_col. split; [now apply partner_lt | now apply partner_neq].
Qed.

(** X2: on a batch of [2N] rows with [batch_size = N >= 1], row [i] of the
    logits is a rearrangement of row [i] of the similarity matrix without
    its diagonal entry, each entry divided by the temperature: every
    off-diagonal similarity of the anchor occurs exactly once. *)
Theorem logits_row_permutation (self : Self) (features : tensor2 F) (N : nat) :
  batch_size self = Z.of_nat N -> 1 <= N -> shape0 features = 2 * N ->
  exists logits labels,
    info_nce_loss features self = (inr (logits, labels), self) /\
    forall i, i < 2 * N ->
      Permutation
        (row logits i)
        (map (fun j => fdiv (sim features i j) (temperature self))
             (seq 0 i ++ seq (S i) (2 * N - S i))).
Proof.
  intros Hbs HN Hlen.
  exists (logits_of features (temperature self) N), (zeros (2 * N)).
  split; [now apply info_nce_loss_ok|].
  intros i Hi. rewrite row_logits_of by assumption.
  rewrite <- (drop_col_eq (2 * N) i Hi).
  apply Permutation_map. now apply logit_cols_permutation.
Qed.

(** X3: partners share their positive logit: the entry at index 0 of row
    [i] equals the entry at index 0 of the row of [i]'s partner. *)
Theorem positive_shared_by_partners (self : Self) (features : tensor2 F)
  (N : nat) :
  (forall a b : F, fmul a b = fmul b a) -> wf features ->
  batch_size self = Z.of_nat N -> 1 <= N -> shape0 features = 2 * N ->
  exists logits labels,
    info_nce_loss features self = (inr (logits, labels), self) /\
    forall i, i < 2 * N ->
      entry fzero logits i 0 = entry fzero logits (partner N i) 0.
Proof.
  intros Hmul Hwf Hbs HN Hlen.
  exists (logits_of features (temperature self) N), (zeros (2 * N)).
  split; [now apply info_nce_loss_ok|].
  intros i Hi. unfold entry.
  rewrite !row_logits_of by (try apply partner_lt; assumption).
  unfold logit_cols. cbn [map nth].
  rewrite partner_involutive by assumption. f_equal.
  pose proof (partner_lt N i Hi) as Hp.
  rewrite !sim_dot by (rewrite ?Hlen; assumption).
  now apply dot_comm.
Qed.

(** X6: when the two views of a sample have the same embedding, the
    positive logit of the anchor is what the mask removes from its row:
    the diagonal entry of the similarity matrix, the similarity of the
    embedding with itself, divided by the temperature. *)
Theorem identical_views_positive_is_diagonal (self : Self)
  (features : tensor2 F) (N i : nat) :
  wf features ->
  batch_size self = Z.of_nat N -> 1 <= N -> shape0 features = 2 * N ->
  i < 2 * N ->
  row features (partner N i) = row features i ->
  exists logits labels,
    info_nce_loss features self = (inr (logits, labels), self) /\
    entry fzero logits i 0 = fdiv (sim features i i) (temperature self).
Proof.
  intros Hwf Hbs HN Hlen Hi Hrow.
  exists (logits_of features (temperature self) N), (zeros (2 * N)).
  split; [now apply info_nce_loss_ok|].
  unfold entry. rewrite row_logits_of by assumption.
  unfold logit_cols. cbn [map nth]. f_equal.
  pose proof (partner_lt N i Hi) as Hp.
  rewrite !sim_dot by (rewrite ?Hlen; assumption).
  now rewrite Hrow.
Qed.

End MoreProperties.

(** * Zero embeddings *)

Section RealRange.

Open Scope R_scope.

Lemma normalize_row_zero (v : list R) :
  Forall (fun x => x = 0) v -> normalize_row v = v.
Proof.
  intros Hz. unfold normalize_row.
  transitivity (map (fun x : R => x) v); [|apply map_id].
  apply map_ext_in. intros x Hx.
  rewrite Forall_forall in Hz. rewrite (Hz x Hx). simpl. unfold Rdiv. ring.
Qed.

Lemma dot_zero_l (u v : list R) : Forall (fun x => x = 0) u -> dot u v = 0.
Proof.
  unfold dot. intros Hz. revert v.
  induction Hz as [|x u Hx _ IH]; intros [|y v]; simpl in *; try reflexivity.
  rewrite IH, Hx. ring.
Qed.

(** X7: an all-zero embedding is left as it is by [F.normalize] (the
    division is by [eps], not by zero), so all its similarities, its own
    diagonal entry included, are [0]. *)
Theorem sim_zero_embedding (features : tensor2 R) (i j : nat) :
  wf features -> (i < shape0 features)%nat ->
  Forall (fun x => x = 0) (row features i) ->
  normalize_row (row features i) = row features i /\
  sim features i j = 0.
Proof.
  intros Hwf Hi Hz. split; [now apply normalize_row_zero|].
  destruct (Nat.lt_ge_cases j (shape0 features)) as [Hj|Hj];
    [|now rewrite sim_overflow_col].
  rewrite sim_dot by assumption.
  rewrite normalize_row_zero by assumption. now apply dot_zero_l.
Qed.

End RealRange.

(** * The loss the training loop computes *)

Section CrossEntropy.

Context {Model Optimizer Scheduler Criterion Device : Type}.

Open Scope R_scope.

Lemma fsum_permutation (l l' : list R) :
  Permutation l l' -> fsum l = fsum l'.
Proof.
  induction 1 as [|x l l' _ IH|x y l|l l' l'' _ IH1 _ IH2]; simpl in *.
  - reflexivity.
  - now rewrite IH.
  - ring.
  - now rewrite IH1.
Qed.

Lemma fsum_exp_nonneg (r : list R) : 0 <= fsum (map exp r).
Proof.
  induction r as [|x r IH]; simpl in *; [lra|].
  pose proof (exp_pos x). lra.
Qed.

Lemma exp_nth_le_fsum (r : list R) (t : nat) :
  (t < length r)%nat -> exp (nth t r 0) <= fsum (map exp r).
Proof.
  revert t. induction r as [|x r IH]; intros [|t] Ht; simpl in *; try lia.
  - pose proof (fsum_exp_nonneg r). lra.
  - pose proof (exp_pos x). specialize (IH t ltac:(lia)). lra.
Qed.

(** The negative log-likelihood of a class of the row is never negative. *)
Lemma nll_row_nonneg (r : list R) (t : nat) :
  (t < length r)%nat -> 0 <= nll_row r t.
Proof.
  intros Ht. unfold nll_row.
  pose proof (exp_nth_le_fsum r t Ht) as Hle.
  pose proof (exp_pos (nth t r 0)) as Hpos.
  assert (H : ln (exp (nth t r 0)) <= ln (fsum (map exp r))).
  { destruct Hle as [Hlt|Heq].
    - left. now apply ln_increasing.
    - rewrite Heq. lra. }
  rewrite ln_exp in H. lra.
Qed.

Lemma combine_repeat {A B} (l : list A) (x : B) :
  combine l (repeat x (length l)) = map (fun a => (a, x)) l.
Proof. induction l as [|a l IH]; simpl; [reflexivity | now rewrite IH]. Qed.

Lemma fsum_nonneg (l : list R) : Forall (fun x => 0 <= x) l -> 0 <= fsum l.
Proof. induction 1 as [|x l Hx _ IH]; simpl in *; lra. Qed.

(** The criterion on [n] rows of [c >= 1] entries with all targets [0]. *)
Lemma cross_entropy_zeros (c n : nat) (rs : list (list R)) :
  length rs = n -> (1 <= c)%nat ->
  cross_entropy (Tensor2 c rs) (zeros n)
  = inr (fsum (map (fun r => nll_row r 0) rs) / INR n).
Proof.
  intros <- Hc. unfold cross_entropy, zeros, shape0. cbn [rows ncols].
  rewrite repeat_length, Nat.eqb_refl. cbn [negb].
  assert (Hok : forallb (target_ok c) (repeat 0%Z (length rs)) = true).
  { apply forallb_forall. intros y Hy. apply repeat_spec in Hy. subst y.
    unfold target_ok. simpl. apply Z.ltb_lt. lia. }
  rewrite Hok. cbn [negb]. rewrite combine_repeat.
  rewrite (proj2 (filter_ext_in_iff _ (fun _ => true) _))
    by (intros p Hp; apply in_map_iff in Hp as (a & <- & _); reflexivity).
  assert (Hall : forall (A : Type) (l : list A), filter (fun _ => true) l = l)
    by (intros A l; induction l; simpl; congruence).
  rewrite Hall, map_map, length_map. reflexivity.
Qed.

(** The criterion on the logits of the scorer, anchor by anchor, in terms
    of the entries of the similarity matrix. *)
Lemma nll_logits_row (features : tensor2 R) (t : R) (N i : nat) :
  (i < 2 * N)%nat ->
  nll_row (map (fun j => fdiv (sim features i j) t) (logit_cols N i)) 0
  = - (sim features i (partner N i) / t)
    + ln (fsum (map (fun k => exp (sim features i k / t))
                    (seq 0 i ++ seq (S i) (2 * N - S i)))).
Proof.
  intros Hi. unfold nll_row.
  rewrite map_map.
  rewrite (fsum_permutation _
             (map (fun k => exp (sim features i k / t)) (drop_col (2 * N) i)))
    by (apply Permutation_map, logit_cols_permutation; assumption).
  rewrite (drop_col_eq (2 * N) i Hi).
  unfold logit_cols. cbn [map nth]. simpl fdiv. ring.
Qed.

(** Every embedding of the batch is at least [eps] long. *)
Lemma norm_row_ge (features : tensor2 R) (k : nat) :
  Forall (fun v => feps <= norm v) (rows features) ->
  (k < shape0 features)%nat -> feps <= norm (row features k).
Proof.
  intros Hn Hk. rewrite Forall_forall in Hn. apply Hn. now apply nth_In.
Qed.

(** Where no embedding is shorter than [eps], the entries of the
    similarity matrix in the loss of an anchor are the cosine similarities
    of the notebook's formula. *)
Lemma anchor_sim_cosine (features : tensor2 R) (t : R) (N i : nat) :
  wf features -> shape0 features = (2 * N)%nat ->
  Forall (fun v => feps <= norm v) (rows features) ->
  (i < 2 * N)%nat ->
  - (sim features i (partner N i) / t)
  + ln (fsum (map (fun k => exp (sim features i k / t))
                  (seq 0 i ++ seq (S i) (2 * N - S i))))
  = info_nce_anchor features t N i.
Proof.
  intros Hwf Hlen Hn Hi. unfold info_nce_anchor.
  pose proof (partner_lt N i Hi) as Hp.
  rewrite sim_cosine by (try apply norm_row_ge; rewrite ?Hlen; assumption).
  do 3 f_equal. apply map_ext_in. intros k Hk.
  assert (Hk' : (k < 2 * N)%nat)
    by (apply in_app_iff in Hk as [Hk|Hk]; apply in_seq in Hk; lia).
  now rewrite sim_cosine
    by (try apply norm_row_ge; rewrite ?Hlen; assumption).
Qed.

(** X8: over the reals (exact arithmetic), on a well-formed batch of [2N]
    rows with [batch_size = N >= 1], no embedding shorter than [eps] and a
    temperature other than [0], the criterion applied to the logits and
    labels of the scorer raises nothing and returns the mean over the
    [2N] anchors of the InfoNCE loss of the notebook,
    [-sim(z_i, z_j)/t + log (sum over k <> i of exp(sim(z_i, z_k)/t))],
    with [sim] the cosine similarity of the embeddings. *)
Theorem loss_is_info_nce
  (self : SimCLR R Model Optimizer Scheduler Criterion Device)
  (features : tensor2 R) (N : nat) :
  wf features ->
  Forall (fun v => feps <= norm v) (rows features) ->
  temperature self <> 0 ->
  batch_size self = Z.of_nat N -> (1 <= N)%nat ->
  shape0 features = (2 * N)%nat ->
  exists logits labels,
    info_nce_loss features self = (inr (logits, labels), self) /\
    cross_entropy logits labels
    = inr (fsum (map (info_nce_anchor features (temperature self) N)
                     (seq 0 (2 * N)))
           / INR (2 * N)).
Proof.
  intros Hwf Hn _ Hbs HN Hlen.
  exists (logits_of features (temperature self) N), (zeros (2 * N)).
  split; [now apply info_nce_loss_ok|].
  unfold logits_of, gather.
  rewrite cross_entropy_zeros by (rewrite ?length_map, ?length_seq; lia).
  rewrite map_map. do 3 f_equal.
  apply map_ext_in. intros i Hi. apply in_seq in Hi.
  rewrite nll_logits_row by lia.
  apply anchor_sim_cosine; try assumption. lia.
Qed.

(** X9: over the reals (exact arithmetic) and with a temperature other
    than [0], the loss computed from the output of the scorer is never
    negative, and with [batch_size = 1] (a single pair, no negatives) it
    is [0] whatever the embeddings are. *)
Theorem loss_nonneg_zero_without_negatives
  (self : SimCLR R Model Optimizer Scheduler Criterion Device)
  (features : tensor2 R) (N : nat) :
  temperature self <> 0 ->
  batch_size self = Z.of_nat N -> (1 <= N)%nat ->
  shape0 features = (2 * N)%nat ->
  exists logits labels loss,
    info_nce_loss features self = (inr (logits, labels), self) /\
    cross_entropy logits labels = inr loss /\
    0 <= loss /\
    (N = 1%nat -> loss = 0).
Proof.
  intros _ Hbs HN Hlen.
  exists (logits_of features (temperature self) N), (zeros (2 * N)).
  eexists. split; [now apply info_nce_loss_ok|].
  unfold logits_of, gather.
  split; [apply cross_entropy_zeros;
          rewrite ?length_map, ?length_seq; lia|].
  assert (Hn : 0 < INR (2 * N)) by (apply lt_0_INR; lia).
  split.
  - apply Rmult_le_pos; [|left; now apply Rinv_0_lt_compat].
    apply fsum_nonneg, Forall_forall. intros x Hx.
    apply in_map_iff in Hx as (r & <- & Hr).
    apply in_map_iff in Hr as (i & <- & Hi). apply in_seq in Hi.
    apply nll_row_nonneg. rewrite length_map.
    rewrite length_logit_cols by lia. lia.
  - intros ->. cbn [seq map Nat.mul Nat.add].
    change (logit_cols 1 0) with [1%nat]. change (logit_cols 1 1) with [0%nat].
    cbn [map]. unfold nll_row. cbn [map fsum fold_right nth].
    simpl fadd. simpl fzero. rewrite !Rplus_0_r, !ln_exp.
    unfold Rdiv. ring.
Qed.

End CrossEntropy.

(** * Showing the views *)

Section Views.

Lemma concat_triples (n : nat) :
  concat (map (fun i => [i; i + 1; i + 2]%Z)
              (map (fun k => (1 + 3 * Z.of_nat k)%Z) (seq 0 n)))
  = map (fun k => (1 + Z.of_nat k)%Z) (seq 0 (3 * n)).
Proof.
  induction n as [|n IH]; [reflexivity|].
  rewrite seq_S, !map_app, concat_app, IH.
  replace (3 * S n)%nat with (3 * n + 3)%nat by lia.
  rewrite seq_app, map_app. f_equal. cbn [seq map concat app Nat.add].
  f_equal; [lia | f_equal; [lia | f_equal; lia]].
Qed.

(** X10: for [rows >= 1] the loop shows the samples [1, 4, ..., 3*rows-2]
    and fills the positions [1, 2, ..., 3*rows] of the [rows x 3] grid, each
    exactly once and in order; for [rows <= 0] it shows nothing. *)
Theorem subplots_fill_grid (rows : Z) :
  shown_samples rows
  = inr (map (fun k => (1 + 3 * Z.of_nat k)%Z) (seq 0 (Z.to_nat rows))) /\
  subplot_positions rows
  = inr (map (fun k => (1 + Z.of_nat k)%Z) (seq 0 (3 * Z.to_nat rows))).
Proof.
  assert (E : shown_samples rows
              = inr (map (fun k => (1 + 3 * Z.of_nat k)%Z)
                         (seq 0 (Z.to_nat rows)))).
  { unfold shown_samples, py_range. cbn [Z.eqb Z.ltb Z.compare].
    replace (3 * (rows - 1) + 2 - 1 + 3 - 1)%Z with (rows * 3)%Z by lia.
    now rewrite Z.div_mul by lia. }
  split; [exact E|].
  unfold subplot_positions. rewrite E. f_equal. apply concat_triples.
Qed.

Open Scope R_scope.

Lemma clip_unit (x : R) : 0 <= x <= 1 -> np_clip 0 1 x = x.
Proof.
  intros [H0 H1]. unfold np_clip.
  rewrite Rmax_left by assumption. now rewrite Rmin_left.
Qed.

Lemma clip_range (x : R) : 0 <= np_clip 0 1 x <= 1.
Proof.
  unfold np_clip. split.
  - apply Rmin_glb; [apply Rmax_r | lra].
  - apply Rmin_r.
Qed.

Lemma Rnonzero_true (x : R) : x <> 0 -> Rnonzero x = true.
Proof.
  intros Hx. unfold Rnonzero. now destruct (Req_dec_T x 0).
Qed.

Lemma map_id_in {A} (f : A -> A) (l : list A) :
  (forall x, In x l -> f x = x) -> map f l = l.
Proof.
  intros H. transitivity (map (fun x : A => x) l); [|apply map_id].
  now apply map_ext_in.
Qed.

(** X11: for every image of three channels, [unnormalize] undoes
    [Normalize] with the ImageNet statistics; the image shown is the
    original one clipped to [0, 1], hence the original itself when its
    pixels are in [0, 1], and always within [0, 1]. *)
Theorem shown_image_round_trip (c0 c1 c2 : list R) :
  exists y,
    tv_normalize imagenet_mean imagenet_std [c0; c1; c2] = inr y /\
    unnormalize y = inr [c0; c1; c2] /\
    shown_image y = inr (map (map (np_clip 0 1)) [c0; c1; c2]) /\
    (Forall (Forall (fun x => 0 <= x <= 1)) [c0; c1; c2] ->
     shown_image y = inr [c0; c1; c2]) /\
    (forall z, shown_image y = inr z ->
               Forall (Forall (fun x => 0 <= x <= 1)) z).
Proof.
  assert (Hn : forall x : R, x <> 0 -> negb (Rnonzero x) = false)
    by (intros x Hx; now rewrite Rnonzero_true).
  assert (E1 : tv_normalize imagenet_mean imagenet_std [c0; c1; c2]
               = inr [map (fun x => (x - 0.485) / 0.229) c0;
                      map (fun x => (x - 0.456) / 0.224) c1;
                      map (fun x => (x - 0.406) / 0.225) c2]).
  { unfold tv_normalize, imagenet_mean, imagenet_std.
    cbn [existsb]. rewrite !Hn by lra. reflexivity. }
  assert (E2 : unnormalize [map (fun x => (x - 0.485) / 0.229) c0;
                            map (fun x => (x - 0.456) / 0.224) c1;
                            map (fun x => (x - 0.406) / 0.225) c2]
               = inr [c0; c1; c2]).
  { unfold unnormalize, tv_normalize, imagenet_mean, imagenet_std.
    cbn [map2 map existsb]. rewrite !Hn by lra.
    cbn [orb length Nat.eqb broadcast_channels combine map2 fst snd].
    assert (Hpt : forall (m s : R) (ch : list R), s <> 0 ->
              map (fun x => (x - - m / s) / (1 / s))
                  (map (fun x => (x - m) / s) ch) = ch).
    { intros m s ch Hs. rewrite map_map. apply map_id_in.
      intros x _. now field. }
    now rewrite !Hpt by lra. }
  eexists. split; [exact E1|]. split; [exact E2|].
  assert (E3 : shown_image [map (fun x => (x - 0.485) / 0.229) c0;
                            map (fun x => (x - 0.456) / 0.224) c1;
                            map (fun x => (x - 0.406) / 0.225) c2]
               = inr (map (map (np_clip 0 1)) [c0; c1; c2]))
    by (unfold shown_image; now rewrite E2).
  split; [exact E3|]. split.
  - intros Hall. rewrite E3. f_equal.
    apply map_id_in. intros ch Hch. apply map_id_in. intros x Hx.
    apply clip_unit. rewrite Forall_forall in Hall.
    specialize (Hall ch Hch). rewrite Forall_forall in Hall. now apply Hall.
  - intros z Hz. rewrite E3 in Hz. injection Hz as <-.
    assert (Hch : forall ch, Forall (fun x => 0 <= x <= 1)
                               (map (np_clip 0 1) ch)).
    { intros ch. apply Forall_forall. intros x Hx.
      apply in_map_iff in Hx as (x0 & <- & _). apply clip_range. }
    repeat constructor; apply Hch.
Qed.

(** X12: an image that does not have three channels cannot be shown: the
    per-channel statistics do not fit and [unnormalize] raises
    [RuntimeError]. *)
Theorem unnormalize_wrong_channels (img : list (list R)) :
  length img <> 3%nat ->
  unnormalize img = inl (TensorError RuntimeError) /\
  shown_image img = inl (TensorError RuntimeError).
Proof.
  intros Hc.
  assert (Hn : forall x : R, x <> 0 -> negb (Rnonzero x) = false)
    by (intros x Hx; now rewrite Rnonzero_true).
  assert (E : unnormalize img = inl (TensorError RuntimeError)).
  { unfold unnormalize, tv_normalize, imagenet_mean, imagenet_std.
    cbn [map2 map existsb]. rewrite !Hn by lra. cbn [orb].
    unfold broadcast_channels. cbn [length].
    now replace (3 =? length img)%nat with false
      by (symmetry; apply Nat.eqb_neq; lia). }
  split; [exact E|]. unfold shown_image. now rewrite E.
Qed.

End Views.

(** * Batches of a loader *)

Section Batches.

Context {A : Type}.

Lemma batches_fuel_nil (fuel n : nat) : batches_fuel fuel n (@nil A) = [].
Proof. now destruct fuel. Qed.

Lemma div_step (len n : nat) :
  1 <= n -> n <= len ->
  len / n = S ((len - n) / n) /\ len mod n = (len - n) mod n.
Proof.
  intros Hn Hle.
  replace len with ((len - n) + 1 * n) at 1 3 by lia.
  rewrite Nat.div_add, Nat.Div0.mod_add by lia. lia.
Qed.

(** The batches in closed form: [len / n] full batches, then the rest if
    there is one. *)
Lemma batches_closed_form (fuel n : nat) (l : list A) :
  1 <= n -> length l <= fuel ->
  batches_fuel fuel n l
  = map (fun k => firstn n (skipn (k * n) l)) (seq 0 (length l / n))
    ++ (if length l mod n =? 0 then []
        else [skipn (n * (length l / n)) l]).
Proof.
  intros Hn. revert l. induction fuel as [|fuel IH]; intros l Hlen.
  - destruct l; [|simpl in Hlen; lia].
    simpl. now rewrite Nat.Div0.div_0_l, Nat.Div0.mod_0_l.
  - destruct l as [|a l].
    + simpl. now rewrite Nat.Div0.div_0_l, Nat.Div0.mod_0_l.
    + remember (a :: l) as m eqn:Em.
      assert (Hm : 1 <= length m) by (subst m; simpl; lia).
      replace (batches_fuel (S fuel) n m)
        with (firstn n m :: batches_fuel fuel n (skipn n m))
        by (subst m; reflexivity).
      clear Em a l.
      destruct (Nat.le_gt_cases n (length m)) as [Hge|Hlt].
      * destruct (div_step (length m) n Hn Hge) as [Hq Hr].
        rewrite IH by (rewrite length_skipn; lia).
        rewrite length_skipn, Hq, <- Hr.
        rewrite <- cons_seq, <- seq_shift. cbn [map app]. rewrite map_map.
        rewrite Nat.mul_0_l. cbn [skipn]. f_equal. f_equal.
        -- apply map_ext. intros k. rewrite skipn_skipn. do 2 f_equal. lia.
        -- destruct (length m mod n =? 0); [reflexivity|].
           rewrite skipn_skipn. do 2 f_equal. lia.
      * rewrite firstn_all2, skipn_all2, batches_fuel_nil by lia.
        rewrite Nat.div_small, Nat.mod_small by lia.
        replace (length m =? 0) with false
          by (symmetry; apply Nat.eqb_neq; lia).
        now rewrite Nat.mul_0_r.
Qed.

Lemma concat_batches (fuel n : nat) (l : list A) :
  1 <= n -> length l <= fuel -> concat (batches_fuel fuel n l) = l.
Proof.
  intros Hn. revert l. induction fuel as [|fuel IH]; intros l Hlen.
  - destruct l; [reflexivity | simpl in Hlen; lia].
  - destruct l as [|a l]; [reflexivity|].
    remember (a :: l) as m eqn:Em.
    assert (Hm : 1 <= length m) by (subst m; simpl; lia).
    replace (batches_fuel (S fuel) n m)
      with (firstn n m :: batches_fuel fuel n (skipn n m))
      by (subst m; reflexivity).
    cbn [concat]. rewrite IH by (rewrite length_skipn; lia).
    apply firstn_skipn.
Qed.

Lemma length_full_batch (n k : nat) (l : list A) :
  k < length l / n -> 1 <= n ->
  length (firstn n (skipn (k * n) l)) = n.
Proof.
  intros Hk Hn. rewrite length_firstn, length_skipn.
  pose proof (Nat.Div0.mul_div_le (length l) n) as Hq.
  assert (S k * n <= n * (length l / n)) by nia. lia.
Qed.

Lemma concat_full_batches (n q : nat) (l : list A) :
  n * q <= length l ->
  concat (map (fun k => firstn n (skipn (k * n) l)) (seq 0 q))
  = firstn (n * q) l.
Proof.
  induction q as [|q IH]; intros Hq.
  - now rewrite Nat.mul_0_r.
  - rewrite seq_S, map_app, concat_app, IH by lia. cbn [map concat Nat.add].
    rewrite app_nil_r.
    replace (n * S q) with (n * q + n) by lia.
    rewrite (Nat.mul_comm q n).
    rewrite <- (firstn_skipn (n * q) (firstn (n * q + n) l)).
    rewrite firstn_firstn, Nat.min_l by lia. f_equal.
    now rewrite skipn_firstn_comm, Nat.add_comm, Nat.add_sub.
Qed.

(** The batches of a loader in closed form. *)
Lemma data_loader_closed_form (batch_size : Z) (drop_last : bool)
  (l : list A) :
  (1 <= batch_size)%Z ->
  data_loader batch_size drop_last l
  = inr (map (fun k => firstn (Z.to_nat batch_size)
                         (skipn (k * Z.to_nat batch_size) l))
             (seq 0 (length l / Z.to_nat batch_size))
         ++ (if drop_last || (length l mod Z.to_nat batch_size =? 0) then []
             else [skipn (Z.to_nat batch_size
                          * (length l / Z.to_nat batch_size)) l])).
Proof.
  intros Hbs. unfold data_loader.
  replace (batch_size <=? 0)%Z with false by (symmetry; apply Z.leb_gt; lia).
  set (n := Z.to_nat batch_size). assert (Hn : 1 <= n) by lia.
  rewrite batches_closed_form by lia. f_equal.
  destruct drop_last; cbn [orb].
  2:{ now destruct (length l mod n =? 0). }
  rewrite filter_app.
  assert (Hfull : filter (fun b : list A => length b =? n)
                    (map (fun k => firstn n (skipn (k * n) l))
                         (seq 0 (length l / n)))
                  = map (fun k => firstn n (skipn (k * n) l))
                        (seq 0 (length l / n))).
  { rewrite (proj2 (filter_ext_in_iff _ (fun _ => true) _)).
    - generalize (map (fun k => firstn n (skipn (k * n) l))
                      (seq 0 (length l / n))).
      intros m. induction m; simpl; congruence.
    - intros b Hb. apply in_map_iff in Hb as (k & <- & Hk).
      apply in_seq in Hk. apply Nat.eqb_eq, length_full_batch; lia. }
  assert (Hrest : filter (fun b : list A => length b =? n)
                    (if length l mod n =? 0 then []
                     else [skipn (n * (length l / n)) l]) = []).
  { destruct (Nat.eqb_spec (length l mod n) 0) as [E|E]; [reflexivity|].
    cbn [filter]. rewrite length_skipn.
    pose proof (Nat.div_mod_eq (length l) n) as Hdm.
    pose proof (Nat.mod_upper_bound (length l) n ltac:(lia)) as Hlt.
    replace (length l - n * (length l / n) =? n) with false; [reflexivity|].
    symmetry. apply Nat.eqb_neq. lia. }
  now rewrite Hfull, Hrest.
Qed.

(** X13: a loader that keeps the last batch ([drop_last=False]) yields
    every sample once and in order: the batches concatenate to the
    dataset; every batch but the last has [batch_size] samples, the last
    one has the [len mod batch_size] samples that remain, if any. *)
Theorem data_loader_keeps_all (batch_size : Z) (l : list A) :
  (1 <= batch_size)%Z ->
  exists batches,
    data_loader batch_size false l = inr batches /\
    concat batches = l /\
    Forall (fun b => 1 <= length b <= Z.to_nat batch_size) batches /\
    Forall (fun b => length b = Z.to_nat batch_size) (removelast batches) /\
    (length l mod Z.to_nat batch_size <> 0 ->
     length (last batches []) = length l mod Z.to_nat batch_size).
Proof.
  intros Hbs. rewrite data_loader_closed_form by assumption. cbn [orb].
  set (n := Z.to_nat batch_size). assert (Hn : 1 <= n) by lia.
  eexists. split; [reflexivity|].
  assert (Hfull : Forall (fun b : list A => length b = n)
                    (map (fun k => firstn n (skipn (k * n) l))
                         (seq 0 (length l / n)))).
  { apply Forall_forall. intros b Hb. apply in_map_iff in Hb as (k & <- & Hk).
    apply in_seq in Hk. apply length_full_batch; lia. }
  pose proof (Nat.div_mod_eq (length l) n) as Hdm.
  pose proof (Nat.mod_upper_bound (length l) n ltac:(lia)) as Hlt.
  split; [|split; [|split]].
  - rewrite <- (batches_closed_form (length l) n l) by lia.
    apply concat_batches; lia.
  - apply Forall_app. split.
    + eapply Forall_impl; [|exact Hfull]. intros b Hb. cbn beta in *. lia.
    + destruct (Nat.eqb_spec (length l mod n) 0); constructor; [|constructor].
      rewrite length_skipn. lia.
  - destruct (Nat.eqb_spec (length l mod n) 0).
    + rewrite app_nil_r.
      generalize dependent (map (fun k => firstn n (skipn (k * n) l))
                                (seq 0 (length l / n))).
      intros m. induction 1 as [|b m Hb Hm IH]; [constructor|].
      destruct m; [constructor|]. cbn [removelast].
      constructor; [exact Hb | exact IH].
    + now rewrite removelast_last.
  - intros Hr. destruct (Nat.eqb_spec (length l mod n) 0); [contradiction|].
    rewrite last_last, length_skipn. lia.
Qed.

(** X14: a loader that drops the last batch ([drop_last=True]) yields
    [len / batch_size] batches of exactly [batch_size] samples, the first
    [batch_size * (len / batch_size)] samples in order; fewer than
    [batch_size] samples are left out. *)
Theorem data_loader_drop_last (batch_size : Z) (l : list A) :
  (1 <= batch_size)%Z ->
  exists batches,
    data_loader batch_size true l = inr batches /\
    Forall (fun b => length b = Z.to_nat batch_size) batches /\
    length batches = length l / Z.to_nat batch_size /\
    concat batches
    = firstn (Z.to_nat batch_size * (length l / Z.to_nat batch_size)) l /\
    length l - length (concat batches) < Z.to_nat batch_size.
Proof.
  intros Hbs. rewrite data_loader_closed_form by assumption. cbn [orb].
  set (n := Z.to_nat batch_size). assert (Hn : 1 <= n) by lia.
  eexists. split; [reflexivity|]. rewrite app_nil_r.
  pose proof (Nat.Div0.mul_div_le (length l) n) as Hq.
  split; [|split; [|split]].
  - apply Forall_forall. intros b Hb. apply in_map_iff in Hb as (k & <- & Hk).
    apply in_seq in Hk. apply length_full_batch; lia.
  - now rewrite length_map, length_seq.
  - now apply concat_full_batches.
  - rewrite concat_full_batches, length_firstn by assumption.
    pose proof (Nat.div_mod_eq (length l) n) as Hdm.
    pose proof (Nat.mod_upper_bound (length l) n ltac:(lia)) as Hlt. lia.
Qed.

End Batches.

(** * Encoding a dataset *)

Section ProbeFacts.

Context {F Img : Type}.

Variable network : list Img -> list (list F).
Variable sort_indices : list Z -> list nat.
Variable encode : Img -> list F.

Lemma pick_nth {A} (t : list A) (k : nat) (d : A) :
  k < length t -> firstn 1 (skipn k t) = [nth k t d].
Proof.
  revert k. induction t as [|a t IH]; intros [|k] Hk; simpl in *; try lia.
  - reflexivity.
  - apply IH. lia.
Qed.

Lemma index_select_in_range {A} (t : list A) (idxs : list nat) (d : A) :
  Forall (fun k => k < length t) idxs ->
  index_select t idxs = inr (map (fun k => nth k t d) idxs).
Proof.
  intros Hall. unfold index_select.
  replace (forallb (fun k => k <? length t) idxs) with true.
  - f_equal. induction Hall as [|k idxs Hk _ IH]; [reflexivity|].
    cbn [flat_map map]. now rewrite (pick_nth t k d Hk), IH.
  - symmetry. apply forallb_forall. intros k Hk.
    rewrite Forall_forall in Hall. apply Nat.ltb_lt. now apply Hall.
Qed.

Lemma map_nth_seq {A} (l : list A) (d : A) :
  map (fun k => nth k l d) (seq 0 (length l)) = l.
Proof.
  apply (nth_ext _ _ d d).
  - now rewrite length_map, length_seq.
  - intros k Hk. rewrite length_map, length_seq in Hk.
    now rewrite (nth_map_seq (fun k => nth k l d)).
Qed.

Lemma perm_in_range (idxs : list nat) (n : nat) :
  Permutation idxs (seq 0 n) -> Forall (fun k => k < n) idxs.
Proof.
  intros Hp. apply Forall_forall. intros k Hk.
  apply (Permutation_in _ Hp), in_seq in Hk. lia.
Qed.

(** The outcome on a non-empty dataset when the encoder works image by
    image and [sort] returns a permutation of the positions. *)
Lemma prepare_data_features_value (dataset : list (Img * Z)) (batchsize : Z)
  (d : Img * Z) :
  (forall b, network b = map encode b) ->
  Permutation (sort_indices (map snd dataset)) (seq 0 (length dataset)) ->
  dataset <> [] -> (1 <= batchsize)%Z ->
  prepare_data_features network sort_indices dataset batchsize
  = inr (map (fun k => encode (fst (nth k dataset d)))
             (sort_indices (map snd dataset)),
         map (fun k => snd (nth k dataset d))
             (sort_indices (map snd dataset))).
Proof.
  intros Hnet Hperm Hne Hbs. unfold prepare_data_features.
  assert (Hload : exists batches,
            data_loader batchsize false dataset = inr batches
            /\ concat batches = dataset).
  { unfold data_loader.
    replace (batchsize <=? 0)%Z with false
      by (symmetry; apply Z.leb_gt; lia).
    eexists. split; [reflexivity|]. apply concat_batches; lia. }
  destruct Hload as (batches & -> & Hcat).
  assert (Hb : batches <> []) by (intros ->; simpl in Hcat; congruence).
  assert (Hfeats : cat_rows (map (fun b => network (map fst b)) batches)
                   = inr (map (fun s => encode (fst s)) dataset)).
  { destruct batches as [|b bs]; [congruence|]. unfold cat_rows.
    cbn [map]. f_equal. rewrite <- Hcat.
    change (network (map fst b) :: map (fun b0 => network (map fst b0)) bs)
      with (map (fun b0 => network (map fst b0)) (b :: bs)).
    rewrite concat_map. f_equal. apply map_ext. intros b0.
    now rewrite Hnet, map_map. }
  assert (Hlabels : cat_rows (map (fun b : list (Img * Z) => map snd b) batches)
                    = inr (map snd dataset)).
  { destruct batches as [|b bs]; [congruence|]. unfold cat_rows.
    cbn [map]. f_equal. rewrite <- Hcat.
    change (map snd b :: map (fun b0 : list (Img * Z) => map snd b0) bs)
      with (map (fun b0 : list (Img * Z) => map snd b0) (b :: bs)).
    now rewrite concat_map. }
  rewrite Hfeats, Hlabels.
  pose proof (perm_in_range _ _ Hperm) as Hrange.
  rewrite (index_select_in_range (map snd dataset) _ (snd d))
    by now rewrite length_map.
  rewrite (index_select_in_range (map (fun s => encode (fst s)) dataset) _
             (encode (fst d)))
    by now rewrite length_map.
  rewrite !length_map, Nat.eqb_refl. f_equal. f_equal.
  - apply map_ext. intros k.
    now rewrite (map_nth (fun s => encode (fst s))).
  - apply map_ext. intros k. now rewrite (map_nth snd).
Qed.

(** X15: on a non-empty dataset, with an encoder that works image by image
    and a [sort] that returns a permutation of the positions putting the
    labels in order, the function returns as many features as labels as
    samples, the labels in ascending order, and every feature still paired
    with the label of its own image; the batch size does not change the
    result. *)
Theorem prepare_data_features_sorted_pairs (dataset : list (Img * Z))
  (batchsize : Z) :
  (forall b, network b = map encode b) ->
  Permutation (sort_indices (map snd dataset)) (seq 0 (length dataset)) ->
  Sorted Z.le (map (fun k => nth k (map snd dataset) 0%Z)
                   (sort_indices (map snd dataset))) ->
  dataset <> [] -> (1 <= batchsize)%Z ->
  exists feats labels,
    prepare_data_features network sort_indices dataset batchsize
    = inr (feats, labels) /\
    length feats = length dataset /\
    length labels = length dataset /\
    Sorted Z.le labels /\
    Permutation (combine feats labels)
                (map (fun s => (encode (fst s), snd s)) dataset) /\
    forall batchsize' : Z,
      (1 <= batchsize')%Z ->
      prepare_data_features network sort_indices dataset batchsize'
      = inr (feats, labels).
Proof.
  intros Hnet Hperm Hsorted Hne Hbs.
  destruct dataset as [|d ds] eqn:Ed; [congruence|]. rewrite <- Ed in *.
  do 2 eexists.
  split; [now apply (prepare_data_features_value dataset batchsize d)|].
  assert (Hlen : length (sort_indices (map snd dataset)) = length dataset)
    by (rewrite (Permutation_length Hperm); apply length_seq).
  split; [now rewrite length_map|].
  split; [now rewrite length_map|].
  split.
  - replace (map (fun k => snd (nth k dataset d))
                 (sort_indices (map snd dataset)))
      with (map (fun k => nth k (map snd dataset) 0%Z)
                (sort_indices (map snd dataset))); [exact Hsorted|].
    apply map_ext_in. intros k Hk. apply nth_map_in.
    apply (Permutation_in _ Hperm), in_seq in Hk. lia.
  - split; [|intros b' Hb';
             now apply (prepare_data_features_value dataset b' d)].
    assert (Hc : forall (l : list nat),
              combine (map (fun k => encode (fst (nth k dataset d))) l)
                      (map (fun k => snd (nth k dataset d)) l)
              = map (fun s : Img * Z => (encode (fst s), snd s))
                    (map (fun k => nth k dataset d) l))
      by (induction l as [|k l IH]; simpl; [reflexivity | now rewrite IH]).
    rewrite Hc. apply Permutation_map.
    rewrite <- (map_nth_seq dataset d) at 2.
    now apply Permutation_map.
Qed.

(** X16: the function raises on an empty dataset ([torch.cat] of an empty
    list, a [RuntimeError]) and on a batch size that is not positive (the
    loader's [ValueError]). *)
Theorem prepare_data_features_raises (dataset : list (Img * Z))
  (batchsize : Z) :
  ((batchsize <= 0)%Z ->
   prepare_data_features network sort_indices dataset batchsize
   = inl ValueError) /\
  ((1 <= batchsize)%Z -> dataset = [] ->
   prepare_data_features network sort_indices dataset batchsize
   = inl (TensorError RuntimeError)).
Proof.
  split.
  - intros Hbs. unfold prepare_data_features, data_loader.
    now replace (batchsize <=? 0)%Z with true
      by (symmetry; apply Z.leb_le; lia).
  - intros Hbs ->. unfold prepare_data_features, data_loader.
    now replace (batchsize <=? 0)%Z with false
      by (symmetry; apply Z.leb_gt; lia).
Qed.

End ProbeFacts.

(** * The training loop *)

Section TrainFacts.

Context {Model Optimizer Scheduler Criterion Device Scaler Img : Type}.

Variable grad_scaler : Scaler.
Variable model_call :
  Model * Optimizer * Scheduler * Scaler -> list Img ->
  tensor2 R * (Model * Optimizer * Scheduler * Scaler).
Variables zero_grad scaler_step scaler_update scheduler_step :
  Model * Optimizer * Scheduler * Scaler ->
  Model * Optimizer * Scheduler * Scaler.
Variable backward :
  Model * Optimizer * Scheduler * Scaler -> R ->
  Model * Optimizer * Scheduler * Scaler.
Variable get_last_lr : Model * Optimizer * Scheduler * Scaler -> R.

Abbreviation TState :=
  (@tstate Model Optimizer Scheduler Criterion Device Scaler).
Abbreviation run_batch :=
  (train_batch model_call zero_grad backward scaler_step scaler_update).
Abbreviation run_batches :=
  (train_batches model_call zero_grad backward scaler_step scaler_update).
Abbreviation run_epoch :=
  (train_epoch model_call zero_grad backward scaler_step scaler_update
               scheduler_step get_last_lr).
Abbreviation run_epochs :=
  (train_epochs model_call zero_grad backward scaler_step scaler_update
                scheduler_step get_last_lr).
Abbreviation run_train :=
  (train grad_scaler model_call zero_grad backward scaler_step scaler_update
         scheduler_step get_last_lr).

(** The model returns one row of features per image. *)
Definition row_per_image : Prop :=
  forall p imgs, shape0 (fst (model_call p imgs)) = length imgs.

Lemma cross_entropy_logits (features : tensor2 R) (t : R) (N : nat) :
  1 <= N ->
  exists l, cross_entropy (logits_of features t N) (zeros (2 * N)) = inr l.
Proof.
  intros HN. eexists. unfold logits_of, gather.
  apply cross_entropy_zeros; rewrite ?length_map, ?length_seq; lia.
Qed.

(** One iteration on a batch of [2N] images. *)
Lemma train_batch_ok (st : TState) (b : list (list Img)) (N : nat) :
  row_per_image ->
  batch_size (ts_self st) = Z.of_nat N -> 1 <= N ->
  length (concat b) = 2 * N ->
  exists st',
    run_batch st b = Done st' /\
    n_iter st' = (n_iter st + 1)%Z /\
    (exists l, loss st' = Some l) /\
    log st' = log st ++ batch_events /\
    config (ts_self st') = config (ts_self st).
Proof.
  intros Hrow Hbs HN Hlen. unfold train_batch.
  assert (Hcat : cat_rows b = inr (concat b))
    by (destruct b; [simpl in Hlen; lia | reflexivity]).
  rewrite Hcat. unfold to.
  specialize (Hrow (parts st) (concat b)).
  destruct (model_call (parts st) (concat b)) as [features p]. cbn [fst] in Hrow.
  rewrite (info_nce_loss_ok _ features N) by (try assumption; lia).
  destruct (cross_entropy_logits features
              (temperature (ts_self (after st ModelCall p))) N HN) as [l Hl].
  rewrite Hl. eexists. split; [reflexivity|].
  cbn. repeat split.
  - now exists l.
  - now rewrite <- !app_assoc.
Qed.

(** One iteration on a batch that does not have [2N] images. *)
Lemma train_batch_short (st : TState) (b : list (list Img)) (N : nat) :
  row_per_image ->
  batch_size (ts_self st) = Z.of_nat N -> 1 <= N ->
  b <> [] -> length (concat b) <> 2 * N ->
  exists st',
    run_batch st b = Raised (TensorError IndexError) st' /\
    n_iter st' = n_iter st /\
    log st' = log st ++ [ModelCall].
Proof.
  intros Hrow Hbs HN Hne Hlen. unfold train_batch.
  assert (Hcat : cat_rows b = inr (concat b))
    by (destruct b; [congruence | reflexivity]).
  rewrite Hcat. unfold to.
  specialize (Hrow (parts st) (concat b)).
  destruct (model_call (parts st) (concat b)) as [features p]. cbn [fst] in Hrow.
  rewrite (info_nce_loss_mismatch _ features N) by (try assumption; lia).
  eexists. split; [reflexivity|]. now cbn.
Qed.

Lemma count_app (p : event -> bool) (l l' : list event) :
  count p (l ++ l') = count p l + count p l'.
Proof. unfold count. now rewrite filter_app, length_app. Qed.

(** The inner loop over batches of [2N] images each. *)
Lemma train_batches_ok (batches : list (list (list Img))) (N : nat) :
  row_per_image -> 1 <= N ->
  Forall (fun b => length (concat b) = 2 * N) batches ->
  forall st : TState,
    batch_size (ts_self st) = Z.of_nat N ->
    exists st',
      run_batches st batches = Done st' /\
      n_iter st' = (n_iter st + Z.of_nat (length batches))%Z /\
      (batches <> [] \/ (exists l, loss st = Some l) ->
       exists l, loss st' = Some l) /\
      log st' = log st ++ concat (map (fun _ => batch_events) batches) /\
      config (ts_self st') = config (ts_self st).
Proof.
  intros Hrow HN. induction 1 as [|b batches Hb _ IH]; intros st Hbs.
  - exists st. cbn. repeat split; try lia.
    + intros [H|H]; [congruence | exact H].
    + now rewrite app_nil_r.
  - destruct (train_batch_ok st b N Hrow Hbs HN Hb)
      as (st1 & E1 & Hn1 & Hl1 & Hlog1 & Hc1).
    assert (Hbs1 : batch_size (ts_self st1) = Z.of_nat N).
    { unfold config in Hc1. injection Hc1 as _ _ _ Hb1 _. congruence. }
    destruct (IH st1 Hbs1) as (st2 & E2 & Hn2 & Hl2 & Hlog2 & Hc2).
    exists st2. cbn [train_batches]. rewrite E1.
    split; [exact E2|]. split; [|split; [|split]].
    + rewrite Hn2, Hn1. cbn [length]. lia.
    + intros _. apply Hl2. now right.
    + rewrite Hlog2, Hlog1. cbn [map concat]. now rewrite <- app_assoc.
    + congruence.
Qed.

Lemma count_batch_events (p : event -> bool) (n : nat) {X} (l : list X) :
  length l = n ->
  count p (concat (map (fun _ => batch_events) l)) = n * count p batch_events.
Proof.
  intros <-. induction l as [|x l IH]; [reflexivity|].
  cbn [map concat length]. rewrite count_app, IH. lia.
Qed.

(** How far a run got from [st0] to [st]: iterations of the inner loop,
    scheduler steps and epoch lines, read off the counter and the log; the
    configuration of the object is unchanged. *)
Definition progress (st0 st : TState) (iters scheds lines : nat) : Prop :=
  n_iter st = (n_iter st0 + Z.of_nat iters)%Z /\
  (exists tail,
     log st = log st0 ++ tail /\
     count is_model_call tail = iters /\
     count is_scaler_step tail = iters /\
     count is_scheduler_step tail = scheds /\
     count is_print_epoch tail = lines) /\
  config (ts_self st) = config (ts_self st0).

Lemma progress_refl (st : TState) : progress st st 0 0 0.
Proof.
  unfold progress. repeat split; [cbn; lia|].
  exists []. now rewrite app_nil_r.
Qed.

Lemma progress_trans (a b c : TState) (i s l i' s' l' : nat) :
  progress a b i s l -> progress b c i' s' l' ->
  progress a c (i + i') (s + s') (l + l').
Proof.
  intros (Hn & (t & Ht & H1 & H2 & H3 & H4) & Hc)
         (Hn' & (t' & Ht' & H1' & H2' & H3' & H4') & Hc').
  unfold progress. split; [lia|]. split; [|congruence].
  exists (t ++ t'). rewrite Ht', Ht, app_assoc, !count_app. repeat split; lia.
Qed.

Lemma batch_size_of_config (st0 st : TState) :
  config (ts_self st) = config (ts_self st0) ->
  batch_size (ts_self st) = batch_size (ts_self st0).
Proof. unfold config. intros H. now injection H. Qed.

(** The inner loop over batches of [2N] images each, as progress. *)
Lemma train_batches_progress (batches : list (list (list Img))) (N : nat)
  (st : TState) :
  row_per_image -> 1 <= N ->
  Forall (fun b => length (concat b) = 2 * N) batches ->
  batch_size (ts_self st) = Z.of_nat N ->
  exists st',
    run_batches st batches = Done st' /\
    progress st st' (length batches) 0 0 /\
    (batches <> [] \/ (exists l, loss st = Some l) ->
     exists l, loss st' = Some l).
Proof.
  intros Hrow HN Hall Hbs.
  destruct (train_batches_ok batches N Hrow HN Hall st Hbs)
    as (st' & E & Hn & Hl & Hlog & Hc).
  exists st'. split; [exact E|]. split; [|exact Hl].
  unfold progress. split; [exact Hn|]. split; [|exact Hc].
  eexists. split; [exact Hlog|].
  rewrite !(count_batch_events _ (length batches)) by reflexivity.
  cbn. lia.
Qed.

(** One epoch whose batches all have [2N] images. *)
Lemma train_epoch_ok (loader : nat -> list (list (list Img)))
  (dataset_len : Z) (N k : nat) (st : TState) :
  row_per_image -> 1 <= N ->
  Forall (fun b => length (concat b) = 2 * N) (loader k) ->
  loader k <> [] \/ (exists l, loss st = Some l) ->
  batch_size (ts_self st) = Z.of_nat N ->
  exists st',
    run_epoch loader dataset_len st k = Done st' /\
    progress st st' (length (loader k)) (if 5 <=? k then 1 else 0) 1 /\
    (exists l, loss st' = Some l).
Proof.
  intros Hrow HN Hall Hloss Hbs.
  destruct (train_batches_progress (loader k) N st Hrow HN Hall Hbs)
    as (st1 & E1 & Hp1 & Hl1).
  destruct (Hl1 Hloss) as [l Hl]. unfold train_epoch. rewrite E1.
  destruct (5 <=? k).
  - cbn [loss after]. rewrite Hl. eexists. split; [reflexivity|].
    split; [|now exists l].
    replace (length (loader k)) with (length (loader k) + 0) by lia.
    apply (progress_trans _ _ _ _ _ _ _ 1 1 Hp1).
    unfold progress. cbn. split; [lia|]. split; [|reflexivity].
    eexists. split; [now rewrite <- app_assoc|]. now cbn.
  - rewrite Hl. eexists. split; [reflexivity|]. split; [|now exists l].
    replace (length (loader k)) with (length (loader k) + 0) by lia.
    apply (progress_trans _ _ _ _ _ _ _ 0 1 Hp1).
    unfold progress. cbn. split; [lia|]. split; [|reflexivity].
    eexists. split; [reflexivity|]. now cbn.
Qed.

(** The epochs [ks], each with at least one batch and only batches of
    [2N] images. *)
Lemma train_epochs_ok (loader : nat -> list (list (list Img)))
  (dataset_len : Z) (N : nat) (ks : list nat) :
  row_per_image -> 1 <= N ->
  (forall k, In k ks ->
     loader k <> [] /\
     Forall (fun b => length (concat b) = 2 * N) (loader k)) ->
  forall st : TState,
    batch_size (ts_self st) = Z.of_nat N ->
    exists st',
      run_epochs loader dataset_len st ks = Done st' /\
      progress st st'
        (list_sum (map (fun k => length (loader k)) ks))
        (length (filter (fun k => 5 <=? k) ks))
        (length ks).
Proof.
  intros Hrow HN. induction ks as [|k ks IH]; intros Hks st Hbs.
  - exists st. split; [reflexivity | apply progress_refl].
  - destruct (Hks k (or_introl eq_refl)) as [Hne Hall].
    destruct (train_epoch_ok loader dataset_len N k st Hrow HN Hall
                (or_introl Hne) Hbs) as (st1 & E1 & Hp1 & _).
    assert (Hbs1 : batch_size (ts_self st1) = Z.of_nat N).
    { rewrite <- Hbs. apply batch_size_of_config.
      now destruct Hp1 as (_ & _ & Hc). }
    destruct (IH (fun j Hj => Hks j (or_intror Hj)) st1 Hbs1)
      as (st2 & E2 & Hp2).
    exists st2. cbn [train_epochs]. rewrite E1. split; [exact E2|].
    cbn [map filter length].
    change (list_sum (length (loader k)
                      :: map (fun k0 => length (loader k0)) ks))
      with (length (loader k)
            + list_sum (map (fun k0 => length (loader k0)) ks)).
    replace (length (if 5 <=? k then k :: filter (fun k0 => 5 <=? k0) ks
                     else filter (fun k0 => 5 <=? k0) ks))
      with ((if 5 <=? k then 1 else 0)
            + length (filter (fun k0 => 5 <=? k0) ks))
      by (destruct (5 <=? k); reflexivity).
    exact (progress_trans _ _ _ _ _ _ _ _ _ Hp1 Hp2).
Qed.

Lemma count_warmup (E : nat) :
  length (filter (fun k => 5 <=? k) (seq 0 E)) = E - 5.
Proof.
  destruct (Nat.le_gt_cases E 5) as [Hle|Hgt].
  - rewrite filter_seq_none; [simpl; lia|].
    intros j Hj. apply Nat.leb_gt. lia.
  - replace E with (5 + (E - 5)) at 1 by lia.
    rewrite seq_app, filter_app, filter_seq_none, filter_seq_all.
    + cbn [app]. rewrite length_seq. lia.
    + intros j Hj. apply Nat.leb_le. lia.
    + intros j Hj. apply Nat.leb_gt. lia.
Qed.

(** X17: with at least one epoch and a loader that yields no batch in the
    first one, [train] raises [UnboundLocalError] at the first epoch line
    ([loss] was never assigned): only the start line was printed, no
    collaborator was called. *)
Theorem train_empty_loader (self : SimCLR R Model Optimizer Scheduler
                                     Criterion Device)
  (loader : nat -> list (list (list Img))) (dataset_len : Z) :
  (1 <= epochs self)%Z -> loader 0 = [] ->
  run_train self loader dataset_len
  = Raised UnboundLocalError
      {| ts_self := self; ts_scaler := grad_scaler; n_iter := 0%Z;
         loss := None; log := [PrintStart (epochs self)] |}.
Proof.
  intros He Hl. unfold train.
  replace (Z.to_nat (epochs self)) with (S (Z.to_nat (epochs self) - 1))
    by lia.
  cbn [seq train_epochs]. unfold train_epoch. rewrite Hl. reflexivity.
Qed.

(** X18: when the model returns one row per image and every batch of
    every epoch holds [2 * batch_size] images, at least one batch per
    epoch, [train] ends normally: [n_iter], the model calls and the
    optimizer steps all equal the number of batches, one line is printed
    per epoch, the scheduler is stepped in the epochs from the sixth on
    ([epochs - 5] times), and the configuration of the object is
    unchanged. *)
Theorem train_completes (self : SimCLR R Model Optimizer Scheduler
                                  Criterion Device)
  (loader : nat -> list (list (list Img))) (dataset_len : Z) (N : nat) :
  row_per_image ->
  batch_size self = Z.of_nat N -> 1 <= N ->
  (forall k, k < Z.to_nat (epochs self) ->
     loader k <> [] /\
     Forall (fun b => length (concat b) = 2 * N) (loader k)) ->
  exists st,
    run_train self loader dataset_len = Done st /\
    n_iter st
    = Z.of_nat (list_sum (map (fun k => length (loader k))
                              (seq 0 (Z.to_nat (epochs self))))) /\
    count is_model_call (log st) = Z.to_nat (n_iter st) /\
    count is_scaler_step (log st) = Z.to_nat (n_iter st) /\
    count is_scheduler_step (log st) = Z.to_nat (epochs self) - 5 /\
    count is_print_epoch (log st) = Z.to_nat (epochs self) /\
    last (log st) PrintFinished = PrintFinished /\
    config (ts_self st) = config self.
Proof.
  intros Hrow Hbs HN Hks. unfold train.
  set (st0 := {| ts_self := self; ts_scaler := grad_scaler; n_iter := 0%Z;
                 loss := None; log := [PrintStart (epochs self)] |}).
  destruct (train_epochs_ok loader dataset_len N
              (seq 0 (Z.to_nat (epochs self))) Hrow HN
              (fun k Hk => Hks k (proj2 (proj1 (in_seq _ _ _) Hk))) st0 Hbs)
    as (st & E & Hn & (tail & Ht & H1 & H2 & H3 & H4) & Hc).
  rewrite E. eexists. split; [reflexivity|].
  rewrite count_warmup in H3. rewrite length_seq in H4.
  subst st0. cbn [n_iter log printed ts_self] in *. rewrite Hn, Ht.
  rewrite Z.add_0_l, Nat2Z.id, !count_app, H1, H2, H3, H4.
  cbn [count filter length is_model_call is_scaler_step is_scheduler_step
       is_print_epoch].
  repeat split; try lia.
  - apply last_last.
  - exact Hc.
Qed.

(** The inner loop stops at the first batch that does not hold [2N]
    images. *)
Lemma train_batches_short (good rest : list (list (list Img)))
  (bad : list (list Img)) (N : nat) :
  row_per_image -> 1 <= N ->
  Forall (fun b => length (concat b) = 2 * N) good ->
  bad <> [] -> length (concat bad) <> 2 * N ->
  forall st : TState,
    batch_size (ts_self st) = Z.of_nat N ->
    exists st',
      run_batches st (good ++ bad :: rest)
      = Raised (TensorError IndexError) st' /\
      n_iter st' = (n_iter st + Z.of_nat (length good))%Z /\
      log st'
      = log st ++ concat (map (fun _ => batch_events) good) ++ [ModelCall].
Proof.
  intros Hrow HN Hgood Hne Hbad.
  induction Hgood as [|b good Hb _ IH]; intros st Hbs.
  - destruct (train_batch_short st bad N Hrow Hbs HN Hne Hbad)
      as (st' & E & Hn & Hlog).
    exists st'. cbn [app train_batches]. rewrite E.
    split; [reflexivity|]. split; [cbn; lia | exact Hlog].
  - destruct (train_batch_ok st b N Hrow Hbs HN Hb)
      as (st1 & E1 & Hn1 & _ & Hlog1 & Hc1).
    assert (Hbs1 : batch_size (ts_self st1) = Z.of_nat N)
      by (rewrite <- Hbs; now apply batch_size_of_config).
    destruct (IH st1 Hbs1) as (st2 & E2 & Hn2 & Hlog2).
    exists st2. cbn [app train_batches]. rewrite E1.
    split; [exact E2|]. split.
    + rewrite Hn2, Hn1. cbn [length]. lia.
    + rewrite Hlog2, Hlog1. cbn [map concat]. now rewrite <- !app_assoc.
Qed.

Section Loader.

Context {L : Type}.

Variable order : nat -> list (Img * Img * L) -> list (Img * Img * L).

Lemma length_collate_views (b : list (Img * Img * L)) :
  length (concat (collate_views b)) = 2 * length b.
Proof.
  unfold collate_views. cbn [concat].
  rewrite !length_app, !length_map. simpl. lia.
Qed.

Lemma list_sum_const {X} (c : nat) (f : X -> nat) (l : list X) :
  (forall x, In x l -> f x = c) -> list_sum (map f l) = length l * c.
Proof.
  induction l as [|x l IH]; intros H; [reflexivity|].
  cbn [map length].
  change (list_sum (f x :: map f l)) with (f x + list_sum (map f l)).
  rewrite (H x (or_introl eq_refl)), IH.
  - lia.
  - intros y Hy. apply H. now right.
Qed.

(** The batches of views of one epoch, as the loader cuts them. *)
Lemma view_loader_closed_form (samples : list (Img * Img * L)) (N k : nat)
  (drop_last : bool) :
  1 <= N -> length (order k samples) = length samples ->
  view_loader order (Z.of_nat N) drop_last samples k
  = map collate_views
        (map (fun j => firstn N (skipn (j * N) (order k samples)))
             (seq 0 (length samples / N)))
    ++ (if drop_last || (length samples mod N =? 0) then []
        else [collate_views
                (skipn (N * (length samples / N)) (order k samples))]).
Proof.
  intros HN Hlen. unfold view_loader.
  rewrite data_loader_closed_form by lia.
  rewrite Nat2Z.id, Hlen, map_app. f_equal.
  now destruct (drop_last || (length samples mod N =? 0)).
Qed.

Lemma view_loader_full (samples : list (Img * Img * L)) (N k : nat) :
  1 <= N -> length (order k samples) = length samples ->
  Forall (fun b => length (concat b) = 2 * N)
    (map collate_views
         (map (fun j => firstn N (skipn (j * N) (order k samples)))
              (seq 0 (length samples / N)))).
Proof.
  intros HN Hlen. apply Forall_forall. intros b Hb.
  apply in_map_iff in Hb as (c & <- & Hc).
  apply in_map_iff in Hc as (j & <- & Hj). apply in_seq in Hj.
  rewrite length_collate_views, length_full_batch; rewrite ?Hlen; lia.
Qed.

(** X19: the notebook's setting.  With [drop_last=True] and the loader's
    batch size equal to [batch_size], on at least [batch_size] two-view
    samples and with a model that returns one row per image, [train] ends
    normally after [epochs * (len / batch_size)] iterations, whatever the
    order in which each epoch visits the samples; the scheduler is stepped
    [epochs - 5] times. *)
Theorem train_with_drop_last
  (self : SimCLR R Model Optimizer Scheduler Criterion Device)
  (samples : list (Img * Img * L)) (dataset_len : Z) (N : nat) :
  row_per_image ->
  batch_size self = Z.of_nat N -> 1 <= N ->
  (forall k l, length (order k l) = length l) ->
  N <= length samples ->
  exists st,
    run_train self (view_loader order (batch_size self) true samples)
              dataset_len = Done st /\
    n_iter st
    = Z.of_nat (Z.to_nat (epochs self) * (length samples / N)) /\
    count is_scaler_step (log st)
    = Z.to_nat (epochs self) * (length samples / N) /\
    count is_scheduler_step (log st) = Z.to_nat (epochs self) - 5 /\
    count is_print_epoch (log st) = Z.to_nat (epochs self).
Proof.
  intros Hrow Hbs HN Horder Hlen. unfold train.
  set (st0 := {| ts_self := self; ts_scaler := grad_scaler; n_iter := 0%Z;
                 loss := None; log := [PrintStart (epochs self)] |}).
  assert (Hq : 1 <= length samples / N)
    by (apply Nat.div_le_lower_bound; lia).
  assert (Hloader : forall k,
            view_loader order (batch_size self) true samples k
            = map collate_views
                (map (fun j => firstn N (skipn (j * N) (order k samples)))
                     (seq 0 (length samples / N)))).
  { intros k. rewrite Hbs, view_loader_closed_form by (try apply Horder; lia).
    cbn [orb]. apply app_nil_r. }
  assert (Hcount : forall k,
            length (view_loader order (batch_size self) true samples k)
            = length samples / N)
    by (intros k; now rewrite Hloader, !length_map, length_seq).
  destruct (train_epochs_ok
              (view_loader order (batch_size self) true samples)
              dataset_len N (seq 0 (Z.to_nat (epochs self))) Hrow HN)
    with (st := st0) as (st & E & Hn & (tail & Ht & _ & H2 & H3 & H4) & _).
  { intros k _. split.
    - intros Hnil. specialize (Hcount k). rewrite Hnil in Hcount.
      simpl in Hcount. lia.
    - rewrite Hloader. apply view_loader_full; [lia | apply Horder]. }
  { exact Hbs. }
  rewrite E. eexists. split; [reflexivity|].
  rewrite (list_sum_const (length samples / N)) in Hn, H2
    by (intros k _; apply Hcount).
  rewrite length_seq in Hn, H2, H4. rewrite count_warmup in H3.
  subst st0. cbn [n_iter log printed ts_self] in *. rewrite Hn, Ht.
  rewrite Z.add_0_l, !count_app, H2, H3, H4.
  cbn [count filter length is_scaler_step is_scheduler_step is_print_epoch].
  repeat split; lia.
Qed.

(** X20: with [drop_last=False] and a number of samples that is not a
    multiple of [batch_size], the last batch of the first epoch is short:
    [train] raises [IndexError] there, after [len / batch_size] completed
    iterations and before any epoch line is printed. *)
Theorem train_without_drop_last
  (self : SimCLR R Model Optimizer Scheduler Criterion Device)
  (samples : list (Img * Img * L)) (dataset_len : Z) (N : nat) :
  row_per_image ->
  batch_size self = Z.of_nat N -> 1 <= N ->
  (forall k l, length (order k l) = length l) ->
  length samples mod N <> 0 -> (1 <= epochs self)%Z ->
  exists st,
    run_train self (view_loader order (batch_size self) false samples)
              dataset_len = Raised (TensorError IndexError) st /\
    n_iter st = Z.of_nat (length samples / N) /\
    count is_scaler_step (log st) = length samples / N /\
    count is_model_call (log st) = length samples / N + 1 /\
    count is_print_epoch (log st) = 0.
Proof.
  intros Hrow Hbs HN Horder Hmod He. unfold train.
  set (st0 := {| ts_self := self; ts_scaler := grad_scaler; n_iter := 0%Z;
                 loss := None; log := [PrintStart (epochs self)] |}).
  replace (Z.to_nat (epochs self)) with (S (Z.to_nat (epochs self) - 1))
    by lia.
  cbn [seq train_epochs]. unfold train_epoch.
  rewrite Hbs, view_loader_closed_form by (try apply Horder; lia).
  replace (length samples mod N =? 0) with false
    by (symmetry; now apply Nat.eqb_neq).
  cbn [orb].
  pose proof (Nat.div_mod_eq (length samples) N) as Hdm.
  pose proof (Nat.mod_upper_bound (length samples) N ltac:(lia)) as Hlt.
  destruct (train_batches_short
              (map collate_views
                 (map (fun j => firstn N (skipn (j * N) (order 0 samples)))
                      (seq 0 (length samples / N))))
              []
              (collate_views
                 (skipn (N * (length samples / N)) (order 0 samples)))
              N Hrow HN)
    with (st := st0) as (st & E & Hn & Hlog).
  { apply view_loader_full; [lia | apply Horder]. }
  { discriminate. }
  { rewrite length_collate_views, length_skipn, Horder. lia. }
  { exact Hbs. }
  rewrite E. exists st. split; [reflexivity|].
  rewrite !length_map, length_seq in Hn.
  subst st0. cbn [n_iter log] in *. rewrite Hn, Hlog.
  rewrite !count_app,
    !(count_batch_events _ (length samples / N))
    by now rewrite !length_map, length_seq.
  cbn [count filter length is_scaler_step is_model_call is_print_epoch
       batch_events]. repeat split; lia.
Qed.

(** X21: with [drop_last=True] and fewer samples than [batch_size] the
    loader yields no batch at all, and [train] (for at least one epoch)
    raises [UnboundLocalError] at the first epoch line, without a single
    call of the model. *)
Theorem train_too_few_samples
  (self : SimCLR R Model Optimizer Scheduler Criterion Device)
  (samples : list (Img * Img * L)) (dataset_len : Z) (N : nat) :
  batch_size self = Z.of_nat N -> 1 <= N ->
  (forall k l, length (order k l) = length l) ->
  length samples < N -> (1 <= epochs self)%Z ->
  view_loader order (batch_size self) true samples 0 = [] /\
  exists st,
    run_train self (view_loader order (batch_size self) true samples)
              dataset_len = Raised UnboundLocalError st /\
    n_iter st = 0%Z /\
    log st = [PrintStart (epochs self)].
Proof.
  intros Hbs HN Horder Hlen He.
  assert (Hl : view_loader order (batch_size self) true samples 0 = []).
  { rewrite Hbs, view_loader_closed_form by (try apply Horder; lia).
    now rewrite Nat.div_small by lia. }
  split; [exact Hl|]. unfold train.
  replace (Z.to_nat (epochs self)) with (S (Z.to_nat (epochs self) - 1))
    by lia.
  cbn [seq train_epochs]. unfold train_epoch. rewrite Hl.
  eexists. split; [reflexivity|]. now cbn.
Qed.

End Loader.

End TrainFacts.

(** * The further properties on sample inputs *)

Section MoreSamples.

Open Scope R_scope.

Lemma shape_two_pairs : shape0 two_pairs = (2 * 2)%nat.
Proof. reflexivity. Qed.

Lemma logits_row_permutation_two_pairs :
  exists logits labels,
    info_nce_loss two_pairs (simclr 2 1) = (inr (logits, labels), simclr 2 1) /\
    forall i, (i < 2 * 2)%nat ->
      Permutation
        (row logits i)
        (map (fun j => fdiv (sim two_pairs i j) (temperature (simclr 2 1)))
             (seq 0 i ++ seq (S i) (2 * 2 - S i))).
Proof.
  apply (logits_row_permutation (simclr 2 1) two_pairs 2).
  - reflexivity.
  - lia.
  - reflexivity.
Defined.

Lemma positive_shared_two_pairs :
  exists logits labels,
    info_nce_loss two_pairs (simclr 2 1) = (inr (logits, labels), simclr 2 1) /\
    forall i, (i < 2 * 2)%nat ->
      entry fzero logits i 0 = entry fzero logits (partner 2 i) 0.
Proof.
  apply (positive_shared_by_partners (simclr 2 1) two_pairs 2).
  - exact Rmult_comm.
  - exact wf_two_pairs.
  - reflexivity.
  - lia.
  - reflexivity.
Defined.

Lemma sim_zero_first :
  normalize_row (row zero_first 0) = row zero_first 0 /\
  sim zero_first 0 1 = 0.
Proof.
  apply (sim_zero_embedding zero_first 0 1).
  - repeat constructor.
  - unfold shape0, zero_first. cbn. lia.
  - repeat constructor.
Defined.

Lemma identical_views_diagonal_two_pairs :
  exists logits labels,
    info_nce_loss two_pairs (simclr 2 1) = (inr (logits, labels), simclr 2 1) /\
    entry fzero logits 0 0
    = fdiv (sim two_pairs 0 0) (temperature (simclr 2 1)).
Proof.
  apply (identical_views_positive_is_diagonal (simclr 2 1) two_pairs 2 0).
  - repeat constructor.
  - reflexivity.
  - lia.
  - reflexivity.
  - lia.
  - reflexivity.
Defined.

Lemma loss_is_info_nce_two_pairs :
  exists logits labels,
    info_nce_loss two_pairs (simclr 2 1) = (inr (logits, labels), simclr 2 1) /\
    cross_entropy logits labels
    = inr (fsum (map (info_nce_anchor two_pairs (temperature (simclr 2 1)) 2)
                     (seq 0 (2 * 2)))
           / INR (2 * 2)).
Proof.
  apply (loss_is_info_nce (simclr 2 1) two_pairs 2).
  - repeat constructor.
  - unfold two_pairs. cbn [rows].
    repeat constructor; rewrite ?norm_unit_x, ?norm_unit_y; simpl; lra.
  - simpl. lra.
  - reflexivity.
  - lia.
  - reflexivity.
Defined.

Lemma loss_zero_one_pair :
  exists logits labels loss,
    info_nce_loss one_pair (simclr 1 1) = (inr (logits, labels), simclr 1 1) /\
    cross_entropy logits labels = inr loss /\
    0 <= loss /\
    (1%nat = 1%nat -> loss = 0).
Proof.
  apply (loss_nonneg_zero_without_negatives (simclr 1 1) one_pair 1).
  - simpl. lra.
  - reflexivity.
  - lia.
  - reflexivity.
Defined.

Lemma round_trip_gray :
  exists y,
    tv_normalize imagenet_mean imagenet_std [[0.5]; [0.5]; [0.5]] = inr y /\
    unnormalize y = inr [[0.5]; [0.5]; [0.5]] /\
    shown_image y = inr (map (map (np_clip 0 1)) [[0.5]; [0.5]; [0.5]]) /\
    (Forall (Forall (fun x => 0 <= x <= 1)) [[0.5]; [0.5]; [0.5]] ->
     shown_image y = inr [[0.5]; [0.5]; [0.5]]) /\
    (forall z, shown_image y = inr z ->
               Forall (Forall (fun x => 0 <= x <= 1)) z).
Proof. apply (shown_image_round_trip [0.5] [0.5] [0.5]). Defined.

Lemma one_channel_not_shown :
  unnormalize [[0.5]] = inl (TensorError RuntimeError) /\
  shown_image [[0.5]] = inl (TensorError RuntimeError).
Proof. apply (unnormalize_wrong_channels [[0.5]]). simpl. lia. Defined.

Close Scope R_scope.

Lemma keeps_all_five :
  exists batches,
    data_loader 2 false [1; 2; 3; 4; 5] = inr batches /\
    concat batches = [1; 2; 3; 4; 5] /\
    Forall (fun b => 1 <= length b <= Z.to_nat 2) batches /\
    Forall (fun b => length b = Z.to_nat 2) (removelast batches) /\
    (length [1; 2; 3; 4; 5] mod Z.to_nat 2 <> 0 ->
     length (last batches [])
     = length [1; 2; 3; 4; 5] mod Z.to_nat 2).
Proof. apply (data_loader_keeps_all 2 [1; 2; 3; 4; 5]). lia. Defined.

Lemma drop_last_five :
  exists batches,
    data_loader 2 true [1; 2; 3; 4; 5] = inr batches /\
    Forall (fun b => length b = Z.to_nat 2) batches /\
    length batches = length [1; 2; 3; 4; 5] / Z.to_nat 2 /\
    concat batches
    = firstn (Z.to_nat 2 * (length [1; 2; 3; 4; 5] / Z.to_nat 2))
             [1; 2; 3; 4; 5] /\
    length [1; 2; 3; 4; 5] - length (concat batches) < Z.to_nat 2.
Proof. apply (data_loader_drop_last 2 [1; 2; 3; 4; 5]). lia. Defined.

Lemma toy_sort_permutation :
  Permutation (toy_sort (map snd toy_dataset)) (seq 0 (length toy_dataset)).
Proof.
  unfold toy_sort. cbn.
  apply perm_trans with [1; 0; 2]; [apply perm_skip, perm_swap | apply perm_swap].
Qed.

Lemma toy_sort_sorted :
  Sorted Z.le (map (fun k => nth k (map snd toy_dataset) 0%Z)
                   (toy_sort (map snd toy_dataset))).
Proof. cbn. repeat constructor; lia. Qed.

Lemma sorted_pairs_toy :
  exists feats labels,
    prepare_data_features (map toy_encode) toy_sort toy_dataset 2
    = inr (feats, labels) /\
    length feats = length toy_dataset /\
    length labels = length toy_dataset /\
    Sorted Z.le labels /\
    Permutation (combine feats labels)
                (map (fun s => (toy_encode (fst s), snd s)) toy_dataset) /\
    forall batchsize' : Z,
      (1 <= batchsize')%Z ->
      prepare_data_features (map toy_encode) toy_sort toy_dataset batchsize'
      = inr (feats, labels).
Proof.
  apply (prepare_data_features_sorted_pairs (map toy_encode) toy_sort
           toy_encode toy_dataset 2).
  - reflexivity.
  - exact toy_sort_permutation.
  - exact toy_sort_sorted.
  - discriminate.
  - lia.
Defined.

Lemma empty_dataset_raises :
  prepare_data_features (map toy_encode) toy_sort [] 256
  = inl (TensorError RuntimeError).
Proof.
  apply (prepare_data_features_raises (map toy_encode) toy_sort [] 256).
  - lia.
  - reflexivity.
Defined.

Abbreviation toy_train :=
  (train (Criterion := unit) (Device := unit) tt toy_model toy_step
         toy_backward toy_step toy_step toy_step toy_lr).

Lemma toy_row_per_image : row_per_image toy_model.
Proof. intros p imgs. unfold toy_model, shape0. cbn. apply length_map. Qed.

Lemma empty_loader_raises :
  toy_train (simclr 2 1) (fun _ => []) 0
  = Raised UnboundLocalError
      {| ts_self := simclr 2 1; ts_scaler := tt; n_iter := 0%Z;
         loss := None; log := [PrintStart (epochs (simclr 2 1))] |}.
Proof.
  apply (train_empty_loader tt toy_model toy_step toy_step toy_step toy_step
           toy_backward toy_lr (simclr 2 1) (fun _ => []) 0).
  - simpl. lia.
  - reflexivity.
Defined.

Lemma completes_toy :
  exists st,
    toy_train (simclr 2 1) (fun _ => [[[0; 2]; [1; 3]]]) 4 = Done st /\
    n_iter st
    = Z.of_nat (list_sum (map (fun k => length [[[0; 2]; [1; 3]]])
                              (seq 0 (Z.to_nat (epochs (simclr 2 1)))))) /\
    count is_model_call (log st) = Z.to_nat (n_iter st) /\
    count is_scaler_step (log st) = Z.to_nat (n_iter st) /\
    count is_scheduler_step (log st) = Z.to_nat (epochs (simclr 2 1)) - 5 /\
    count is_print_epoch (log st) = Z.to_nat (epochs (simclr 2 1)) /\
    last (log st) PrintFinished = PrintFinished /\
    config (ts_self st) = config (simclr 2 1).
Proof.
  apply (train_completes tt toy_model toy_step toy_step toy_step toy_step
           toy_backward toy_lr (simclr 2 1) (fun _ => [[[0; 2]; [1; 3]]]) 4 2).
  - exact toy_row_per_image.
  - reflexivity.
  - lia.
  - intros k _. split; [discriminate | repeat constructor].
Defined.

Lemma drop_last_toy :
  exists st,
    toy_train (simclr 2 1)
      (view_loader in_order (batch_size (simclr 2 1)) true (toy_samples 5)) 5
    = Done st /\
    n_iter st
    = Z.of_nat (Z.to_nat (epochs (simclr 2 1))
                * (length (toy_samples 5) / 2)) /\
    count is_scaler_step (log st)
    = Z.to_nat (epochs (simclr 2 1)) * (length (toy_samples 5) / 2) /\
    count is_scheduler_step (log st) = Z.to_nat (epochs (simclr 2 1)) - 5 /\
    count is_print_epoch (log st) = Z.to_nat (epochs (simclr 2 1)).
Proof.
  apply (train_with_drop_last tt toy_model toy_step toy_step toy_step
           toy_step toy_backward toy_lr in_order (simclr 2 1)
           (toy_samples 5) 5 2).
  - exact toy_row_per_image.
  - reflexivity.
  - lia.
  - reflexivity.
  - simpl. lia.
Defined.

Lemma keep_last_toy :
  exists st,
    toy_train (simclr 2 1)
      (view_loader in_order (batch_size (simclr 2 1)) false (toy_samples 5)) 5
    = Raised (TensorError IndexError) st /\
    n_iter st = Z.of_nat (length (toy_samples 5) / 2) /\
    count is_scaler_step (log st) = length (toy_samples 5) / 2 /\
    count is_model_call (log st) = length (toy_samples 5) / 2 + 1 /\
    count is_print_epoch (log st) = 0.
Proof.
  apply (train_without_drop_last tt toy_model toy_step toy_step toy_step
           toy_step toy_backward toy_lr in_order (simclr 2 1)
           (toy_samples 5) 5 2).
  - exact toy_row_per_image.
  - reflexivity.
  - lia.
  - reflexivity.
  - simpl. lia.
  - simpl. lia.
Defined.

Lemma too_few_toy :
  view_loader in_order (batch_size (simclr 2 1)) true (toy_samples 1) 0 = [] /\
  exists st,
    toy_train (simclr 2 1)
      (view_loader in_order (batch_size (simclr 2 1)) true (toy_samples 1)) 1
    = Raised UnboundLocalError st /\
    n_iter st = 0%Z /\
    log st = [PrintStart (epochs (simclr 2 1))].
Proof.
  apply (train_too_few_samples tt toy_model toy_step toy_step toy_step
           toy_step toy_backward toy_lr in_order (simclr 2 1)
           (toy_samples 1) 1 2).
  - reflexivity.
  - lia.
  - reflexivity.
  - simpl. lia.
  - simpl. lia.
Defined.

End MoreSamples.
